(** * gemlogconf: run-time log level reconfiguration

    A shallow embedding of [lib/gemlogconf.py] and the properties of its
    configuration parser and of its polling thread.

    Conventions of the embedding.
    - A Python [str] is a [string]; a character is a code point below 256.
    - Python's [re] patterns are regular expressions over those characters,
      decided with Brzozowski derivatives and related to a declarative
      matching relation.
    - The logger is the pair of its level and of the records handed to it
      through [info], [error] and [critical]; whether the [logging] package
      passes a record on, and what its handlers do with it, is outside this
      file.
    - [open], [readlines] and [os.path.getmtime] talk to the file system:
      their results are observations given to the functions, and the calls
      made are counted in the world.
    - Code that can raise runs in a state and exception monad, in which
      [sys.exit] is kept apart from the exceptions [except Exception]
      catches. *)

From Stdlib Require Import ZArith List Bool Ascii String Lia.
Import ListNotations.

Open Scope string_scope.
Open Scope list_scope.
Open Scope Z_scope.

(* ================================================================== *)
(** ** Characters and strings *)

Definition LF : ascii := ascii_of_nat 10.
Definition CR : ascii := ascii_of_nat 13.
Definition TAB : ascii := ascii_of_nat 9.

(** The end of a line of text. *)
Definition NL : string := String LF EmptyString.

(** [str.isspace] on one character, for code points below 256. *)
Definition isspace (c : ascii) : bool :=
  let n := nat_of_ascii c in
  ((9 <=? n)%nat && (n <=? 13)%nat)
  || ((28 <=? n)%nat && (n <=? 32)%nat)
  || (n =? 133)%nat || (n =? 160)%nat.

Fixpoint lstrip (s : string) : string :=
  match s with
  | EmptyString => EmptyString
  | String c r => if isspace c then lstrip r else s
  end.

Fixpoint rstrip (s : string) : string :=
  match s with
  | EmptyString => EmptyString
  | String c r =>
      match rstrip r with
      | EmptyString => if isspace c then EmptyString else String c EmptyString
      | r' => String c r'
      end
  end.

(** [l.strip()] *)
Definition strip (s : string) : string := rstrip (lstrip s).

(** [s.split(sep)] for a separator of one character: the pieces between
    the occurrences of [sep], one more than there are occurrences. *)
Fixpoint split (sep : ascii) (s : string) : list string :=
  match s with
  | EmptyString => [EmptyString]
  | String c r =>
      if Ascii.eqb c sep then EmptyString :: split sep r
      else match split sep r with
           | [] => [String c EmptyString]
           | piece :: pieces => String c piece :: pieces
           end
  end.

(** Text mode with the default [newline=None]: CR LF and a lone CR are
    read as LF. *)
Fixpoint universal_newlines (s : string) : string :=
  match s with
  | EmptyString => EmptyString
  | String c r =>
      if Ascii.eqb c CR then
        match r with
        | String d r' =>
            if Ascii.eqb d LF then String LF (universal_newlines r')
            else String LF (universal_newlines r)
        | EmptyString => String LF EmptyString
        end
      else String c (universal_newlines r)
  end.

(** [f.readlines()]: the lines of the text, each with its LF; the last
    one may have none. *)
Fixpoint readlines (s : string) : list string :=
  match s with
  | EmptyString => []
  | String c r =>
      if Ascii.eqb c LF then String c EmptyString :: readlines r
      else match readlines r with
           | [] => [String c EmptyString]
           | l :: ls => String c l :: ls
           end
  end.

(** Membership of a character in a string, [c in s]. *)
Fixpoint occurs (c : ascii) (s : string) : bool :=
  match s with
  | EmptyString => false
  | String d r => Ascii.eqb d c || occurs c r
  end.

(* ================================================================== *)
(** ** Regular expressions: the fragment of [re] the module uses *)

Inductive regex : Type :=
| Never
| Epsilon
| Class (p : ascii -> bool)
| Seq (r s : regex)
| Or (r s : regex)
| Rep (r : regex).

(** A compiled pattern; [anchored] is a leading [^] (no MULTILINE flag). *)
Record pattern : Type := mkPattern { anchored : bool; body : regex }.

Fixpoint nullable (r : regex) : bool :=
  match r with
  | Never => false
  | Epsilon => true
  | Class _ => false
  | Seq r s => nullable r && nullable s
  | Or r s => nullable r || nullable s
  | Rep _ => true
  end.

Fixpoint deriv (c : ascii) (r : regex) : regex :=
  match r with
  | Never => Never
  | Epsilon => Never
  | Class p => if p c then Epsilon else Never
  | Seq r s =>
      if nullable r then Or (Seq (deriv c r) s) (deriv c s)
      else Seq (deriv c r) s
  | Or r s => Or (deriv c r) (deriv c s)
  | Rep r => Seq (deriv c r) (Rep r)
  end.

(** Some prefix of [s] is matched by [r]: [pattern.match(s)] as a test. *)
Fixpoint match_prefix (r : regex) (s : string) : bool :=
  nullable r ||
  match s with
  | EmptyString => false
  | String c s' => match_prefix (deriv c r) s'
  end.

(** Some factor of [s] is matched by [r]. *)
Fixpoint match_anywhere (r : regex) (s : string) : bool :=
  match_prefix r s ||
  match s with
  | EmptyString => false
  | String _ s' => match_anywhere r s'
  end.

(** [p.search(s)], used as a truth value. *)
Definition search (p : pattern) (s : string) : bool :=
  if anchored p then match_prefix (body p) s else match_anywhere (body p) s.

(** A literal piece of pattern text. *)
Fixpoint literal (w : string) : regex :=
  match w with
  | EmptyString => Epsilon
  | String c w' => Seq (Class (Ascii.eqb c)) (literal w')
  end.

(** [cmnt_filt = re.compile(r'^[ ]*[^#]')] *)
Definition cmnt_filt : pattern :=
  mkPattern true
    (Seq (Rep (Class (Ascii.eqb " "))) (Class (fun c => negb (Ascii.eqb c "#")))).

(** [level_filt = re.compile(r'level=')] *)
Definition level_filt : pattern := mkPattern false (literal "level=").

(** The declarative reading of a regular expression. *)
Inductive matches : regex -> string -> Prop :=
| m_epsilon : matches Epsilon EmptyString
| m_class p c : p c = true -> matches (Class p) (String c EmptyString)
| m_seq r s u v : matches r u -> matches s v -> matches (Seq r s) (u ++ v)%string
| m_or_l r s u : matches r u -> matches (Or r s) u
| m_or_r r s u : matches s u -> matches (Or r s) u
| m_rep_nil r : matches (Rep r) EmptyString
| m_rep_more r c u v :
    matches r (String c u) -> matches (Rep r) v ->
    matches (Rep r) (String c (u ++ v)%string).

(* ================================================================== *)
(** ** The [logging] levels and the module's dictionary *)

Module logging.
Definition DEBUG : Z := 10.
Definition INFO : Z := 20.
Definition WARNING : Z := 30.
Definition ERROR : Z := 40.
Definition CRITICAL : Z := 50.
End logging.

(** The dictionary [log_level], in insertion order. *)
Definition log_level : list (string * Z) :=
  [ ("DEBUG", logging.DEBUG);
    ("INFO", logging.INFO);
    ("WARNING", logging.WARNING);
    ("ERROR", logging.ERROR);
    ("CRITICAL", logging.CRITICAL) ].

(** [d.keys()] *)
Definition keys (d : list (string * Z)) : list string := map fst d.

(** [k in ks] *)
Definition mem (k : string) (ks : list string) : bool :=
  existsb (String.eqb k) ks.

Fixpoint lookup (d : list (string * Z)) (k : string) : option Z :=
  match d with
  | [] => None
  | (k', v) :: d' => if String.eqb k k' then Some v else lookup d' k
  end.

(* ================================================================== *)
(** ** Effects *)

(** What Python can raise here.  [EnvError] stands for whatever [open],
    [readlines] or [os.path.getmtime] raised, with its [str()]. *)
Inductive exn : Type :=
| EnvError (msg : string)
| IndexError
| KeyError (key : string)
| ValueError (msg : string).

Definition str_exn (e : exn) : string :=
  match e with
  | EnvError msg => msg
  | IndexError => "list index out of range"
  | KeyError k => ("'" ++ k ++ "'")%string
  | ValueError msg => msg
  end.

(** The result of a call answered by the file system. *)
Inductive outcome (A : Type) : Type :=
| Returns (a : A)
| Raises (e : exn).
Arguments Returns {A} a.
Arguments Raises {A} e.

(** Calls that leave the module, other than those on the logger. *)
Inductive syscall : Type :=
| Sleep
| Getmtime
| Open
| AddHandler (log_file : string) (rot_hour : Z)
| StartThread.

(** A record handed to the logger: the level of the call and its text. *)
Definition record : Type := (Z * string)%type.

Record World : Type := mkWorld {
  level : Z;                (* the logger's level *)
  records : list record;    (* records handed to the logger, oldest first *)
  calls : list syscall      (* calls made, oldest first *)
}.

(** How a piece of code ends: a value, an exception an [except Exception]
    clause catches, or the [SystemExit] of [sys.exit]. *)
Inductive result (A : Type) : Type :=
| Val (a : A)
| Exc (e : exn)
| SystemExit (e : exn).
Arguments Val {A} a.
Arguments Exc {A} e.
Arguments SystemExit {A} e.

Definition M (A : Type) : Type := World -> result A * World.

Definition ret {A} (a : A) : M A := fun w => (Val a, w).

Definition bind {A B} (m : M A) (k : A -> M B) : M B :=
  fun w =>
    match m w with
    | (Val a, w') => k a w'
    | (Exc e, w') => (Exc e, w')
    | (SystemExit e, w') => (SystemExit e, w')
    end.

Notation "x <- m ;; k" := (bind m (fun x => k))
  (at level 61, m at next level, right associativity).
Notation "m ;; k" := (bind m (fun _ => k))
  (at level 61, right associativity).

Definition raise {A} (e : exn) : M A := fun w => (Exc e, w).

(** [sys.exit(e)] *)
Definition sys_exit {A} (e : exn) : M A := fun w => (SystemExit e, w).

(** [try: m  except Exception as e: handler e] *)
Definition try_except {A} (m : M A) (handler : exn -> M A) : M A :=
  fun w =>
    match m w with
    | (Exc e, w') => handler e w'
    | other => other
    end.

(** [logger.setLevel(v)] *)
Definition setLevel (v : Z) : M unit :=
  fun w => (Val tt, mkWorld v (records w) (calls w)).

Definition log (lvl : Z) (msg : string) : M unit :=
  fun w => (Val tt, mkWorld (level w) (records w ++ [(lvl, msg)]) (calls w)).

Definition info := log logging.INFO.
Definition error := log logging.ERROR.
Definition critical := log logging.CRITICAL.

(** A call answered by the environment with [o]. *)
Definition perform {A} (c : syscall) (o : outcome A) : M A :=
  fun w =>
    (match o with Returns a => Val a | Raises e => Exc e end,
     mkWorld (level w) (records w) (calls w ++ [c])).

(** [xs[i]] *)
Definition item {A} (xs : list A) (i : nat) : M A :=
  match nth_error xs i with
  | Some x => ret x
  | None => raise IndexError
  end.

(** [d[k]] *)
Definition getitem (d : list (string * Z)) (k : string) : M Z :=
  match lookup d k with
  | Some v => ret v
  | None => raise (KeyError k)
  end.

(* ================================================================== *)
(** ** The functions of the module *)

(** The comprehension
    [[l.strip() for l in f.readlines() if cmnt_filt.search(l)]] *)
Definition retained (lines : list string) : list string :=
  filter (search cmnt_filt) lines.

Definition conf_raw_of (lines : list string) : list string :=
  map strip (retained lines).

(** [with open(config_file, 'r') as f: conf_raw = ...]; [file] is the text
    the file system gives, or what opening or reading raised. *)
Definition read_conf (file : outcome string) : M (list string) :=
  text <- perform Open file ;;
  ret (conf_raw_of (readlines (universal_newlines text))).

(** [level = l.split('=')[1]] *)
Definition candidate (l : string) : M string := item (split "=" l) 1.

(** The [for l in conf_raw: ... else: ...] of [set_log_level]. *)
Fixpoint set_log_level_for (config_file : string) (conf_raw : list string)
  : M unit :=
  match conf_raw with
  | [] =>
      critical ("Theres no level configuration in " ++ config_file) ;;
      critical "Level has beem set to INFO"
  | l :: rest =>
      if negb (search level_filt l) then set_log_level_for config_file rest
      else
        level <- candidate l ;;
        if mem level (keys log_level) then
          v <- getitem log_level level ;;
          setLevel v ;;
          info ("Log level started as: " ++ level)
        else
          critical ("Bad option in " ++ config_file ++ ". "
                    ++ "Level: " ++ level ++ " is not valid") ;;
          critical "Level has been set to INFO"
  end.

Definition set_log_level (config_file : string) (file : outcome string)
  : M unit :=
  v <- getitem log_level "INFO" ;;
  setLevel v ;;
  conf_raw <- try_except (read_conf file) (fun e => sys_exit e) ;;
  set_log_level_for config_file conf_raw.

(** The [for l in conf_raw: ... else: ...] of [log_level_thread]. *)
Fixpoint log_level_thread_for (config_file : string) (conf_raw : list string)
  : M unit :=
  match conf_raw with
  | [] =>
      critical ("There is no level configuration in " ++ config_file) ;;
      v <- getitem log_level "INFO" ;;
      setLevel v ;;
      critical "Level has beem set to INFO"
  | l :: rest =>
      if negb (search level_filt l) then log_level_thread_for config_file rest
      else
        level <- candidate l ;;
        if mem level (keys log_level) then
          v <- getitem log_level level ;;
          setLevel v ;;
          info ("Log level changed to: " ++ level)
        else
          critical ("Bad option in " ++ config_file ++ ". "
                    ++ "Level: " ++ level ++ " is not valid") ;;
          v <- getitem log_level "INFO" ;;
          setLevel v ;;
          critical "Level has been set to INFO"
  end.

(** What the file system answers during one pass of the [while True]:
    [stat] to [os.path.getmtime], [file] to the [open] and [readlines]
    that follow when the pass gets there. *)
Record tick : Type := mkTick { stat : outcome Z; file : outcome string }.

(** One pass of the body of [while True], from the [time.sleep] to the
    end of the body or to a [continue].  The value is [mod_time] as the
    next pass finds it.  Modification times are exact numbers; the test
    [not(comp_mtime)] is the test that the difference is zero. *)
Definition log_level_thread_pass (config_file : string) (t : tick)
    (mod_time : Z) : M Z :=
  perform Sleep (Returns tt) ;;
  got <- try_except
    (curr_mtime <- perform Getmtime (stat t) ;; ret (Some curr_mtime))
    (fun e =>
       error ("Conflict while getting mod time for " ++ config_file) ;;
       error (str_exn e) ;;
       error "Retrying geting mod time..." ;;
       ret None) ;;
  match got with
  | None => ret mod_time                               (* continue *)
  | Some curr_mtime =>
      let comp_mtime := curr_mtime - mod_time in
      if comp_mtime =? 0 then ret mod_time             (* continue *)
      else
        let mod_time := curr_mtime in
        read <- try_except
          (conf_raw <- read_conf (file t) ;; ret (Some conf_raw))
          (fun e =>
             error ("Conflict while modifying " ++ config_file) ;;
             error (str_exn e) ;;
             error "Retrying to set the log level..." ;;
             ret None) ;;
        match read with
        | None => ret mod_time                         (* continue *)
        | Some conf_raw =>
            log_level_thread_for config_file conf_raw ;;
            ret mod_time
        end
  end.

(** The first [ticks] passes of the [while True] loop: the loop has no
    exit of its own, so a value here is the state in which the next pass
    starts, and anything else is the end of the thread. *)
Fixpoint log_level_thread_while (config_file : string) (ticks : list tick)
    (mod_time : Z) : M Z :=
  match ticks with
  | [] => ret mod_time
  | t :: later =>
      mod_time' <- log_level_thread_pass config_file t mod_time ;;
      log_level_thread_while config_file later mod_time'
  end.

(** [log_level_thread]: [start] answers the [os.path.getmtime] made before
    the loop, [ticks] the passes after it. *)
Definition log_level_thread (config_file : string) (start : outcome Z)
    (ticks : list tick) : M Z :=
  mod_time <- perform Getmtime start ;;
  log_level_thread_while config_file ticks mod_time.

(** [dt.time(hour=rot_hour)] *)
Definition dt_time (rot_hour : Z) : M Z :=
  if (0 <=? rot_hour) && (rot_hour <=? 23) then ret rot_hour
  else raise (ValueError "hour must be in 0..23").

(** [init_timertng_log], up to the start of the thread.  [sink] answers the
    construction of the rotating handler on [log_file], [file] the first
    reading of the configuration. *)
Definition init_timertng_log (config_file log_file : string) (rot_hour : Z)
    (sink : outcome unit) (file : outcome string) : M unit :=
  at_time <- dt_time rot_hour ;;
  perform (AddHandler log_file at_time) sink ;;
  set_log_level config_file file ;;
  perform StartThread (Returns tt).

(** A logger nobody configured yet ([NOTSET]), before any call. *)
Definition fresh : World := mkWorld 0 [] [].

(* ================================================================== *)
(** ** Notions the properties are stated with *)

(** The part of [s] before the first [sep], all of [s] when there is none. *)
Fixpoint before_first (sep : ascii) (s : string) : string :=
  match s with
  | EmptyString => EmptyString
  | String c r => if Ascii.eqb c sep then EmptyString
                  else String c (before_first sep r)
  end.

(** The part of [s] after the first [sep], nothing when there is none. *)
Fixpoint after_first (sep : ascii) (s : string) : string :=
  match s with
  | EmptyString => EmptyString
  | String c r => if Ascii.eqb c sep then r else after_first sep r
  end.

(** The value of a directive in the words of the specification:
    everything after the first [=] of the line. *)
Definition spec_candidate (l : string) : string := after_first "=" l.

(** A comment line in the words of the specification: after optional
    leading whitespace, the first character is [#]. *)
Definition spec_comment_line (l : string) : bool :=
  match lstrip l with
  | String c _ => Ascii.eqb c "#"
  | EmptyString => false
  end.

(** A line whose very first character is [#]. *)
Definition hash_first (l : string) : bool :=
  match l with
  | String c _ => Ascii.eqb c "#"
  | EmptyString => false
  end.

(** The first directive among the retained lines, if any. *)
Definition first_directive (conf_raw : list string) : option string :=
  find (search level_filt) conf_raw.

(** The retained, stripped lines of a text as it is read. *)
Definition conf_raw_text (text : string) : list string :=
  conf_raw_of (readlines (universal_newlines text)).

(** A text made of the given lines, each closed by LF. *)
Fixpoint unlines (ls : list string) : string :=
  match ls with
  | [] => EmptyString
  | l :: ls' => (l ++ String LF (unlines ls'))%string
  end.

(** The calls of [n] passes that find the modification time unchanged. *)
Fixpoint idle_calls (n : nat) : list syscall :=
  match n with
  | O => []
  | S n' => Sleep :: Getmtime :: idle_calls n'
  end.

(** The calls that open the configuration file. *)
Definition opens (cs : list syscall) : nat :=
  List.length (filter (fun c => match c with Open => true | _ => false end) cs).

(** The three [logger.error] records of an [except] clause of the loop. *)
Definition mtime_errors (config_file : string) (e : exn) : list record :=
  [ (logging.ERROR, ("Conflict while getting mod time for " ++ config_file)%string);
    (logging.ERROR, str_exn e);
    (logging.ERROR, "Retrying geting mod time...") ].

Definition read_errors (config_file : string) (e : exn) : list record :=
  [ (logging.ERROR, ("Conflict while modifying " ++ config_file)%string);
    (logging.ERROR, str_exn e);
    (logging.ERROR, "Retrying to set the log level...") ].

(* ================================================================== *)
(** ** Further notions *)

(** [sep.join(pieces)] for a separator of one character. *)
Fixpoint join (sep : ascii) (pieces : list string) : string :=
  match pieces with
  | [] => EmptyString
  | p :: rest =>
      match rest with
      | [] => p
      | _ :: _ => (p ++ String sep (join sep rest))%string
      end
  end.

(** Every character of [s] satisfies [p]. *)
Fixpoint all_chars (p : ascii -> bool) (s : string) : bool :=
  match s with
  | EmptyString => true
  | String c r => p c && all_chars p r
  end.

(** A string of whitespace only. *)
Definition blank (s : string) : bool := all_chars isspace s.

(** A string of spaces and tabs only. *)
Definition indentation (s : string) : bool :=
  all_chars (fun c => Ascii.eqb c " " || Ascii.eqb c TAB) s.

(** A text made of the given lines, each closed by CR LF. *)
Fixpoint unlines_crlf (ls : list string) : string :=
  match ls with
  | [] => EmptyString
  | l :: ls' => (l ++ String CR (String LF (unlines_crlf ls')))%string
  end.

(** The levels [log_level] can give to the logger. *)
Definition level_values : list Z := map snd log_level.

(** The modification time last returned by [os.path.getmtime] over the
    given passes, [mod_time] when every call raised. *)
Fixpoint last_seen (ticks : list tick) (mod_time : Z) : Z :=
  match ticks with
  | [] => mod_time
  | t :: later =>
      last_seen later
        (match stat t with Returns c => c | Raises _ => mod_time end)
  end.

(** The number of passes that find a modification time other than the
    one returned before. *)
Fixpoint changes (ticks : list tick) (mod_time : Z) : nat :=
  match ticks with
  | [] => 0%nat
  | t :: later =>
      match stat t with
      | Returns c =>
          if c =? mod_time then changes later c else S (changes later c)
      | Raises _ => changes later mod_time
      end
  end.

(** Unfolding the monad on a given world. *)
Ltac run_monad :=
  unfold bind, ret, raise, sys_exit, try_except, perform, read_conf,
    setLevel, error, critical, info, log;
  cbn [level records calls stat file];
  rewrite <- ?app_assoc;
  cbn [app level records calls].

(* ================================================================== *)
(** ** Strings *)

Lemma append_eq_empty (a b : string) :
  (a ++ b)%string = EmptyString -> a = EmptyString /\ b = EmptyString.
Proof. destruct a; simpl; [auto | discriminate]. Qed.

Lemma occurs_append (c : ascii) (a b : string) :
  occurs c (a ++ b) = occurs c a || occurs c b.
Proof.
  induction a as [|x a IH]; simpl; [reflexivity|].
  now rewrite IH, orb_assoc.
Qed.

(* ================================================================== *)
(** ** The derivative test decides the matching relation *)

Lemma nullable_matches (r : regex) : nullable r = true <-> matches r EmptyString.
Proof.
  split.
  - induction r; simpl; intros H; try discriminate.
    + constructor.
    + apply andb_true_iff in H as [H1 H2].
      change EmptyString with (EmptyString ++ EmptyString)%string. constructor; auto.
    + apply orb_true_iff in H as [H|H]; [apply m_or_l | apply m_or_r]; auto.
    + constructor.
  - intros H. remember EmptyString as w eqn:E.
    induction H; simpl; try discriminate; try reflexivity.
    + apply append_eq_empty in E as [-> ->].
      now rewrite IHmatches1, IHmatches2.
    + now rewrite IHmatches.
    + rewrite IHmatches by assumption. apply orb_true_r.
Qed.

Lemma deriv_sound (c : ascii) (r : regex) :
  forall s, matches (deriv c r) s -> matches r (String c s).
Proof.
  induction r as [| |p|r1 IH1 r2 IH2|r1 IH1 r2 IH2|r IH]; simpl; intros s H.
  - inversion H.
  - inversion H.
  - destruct (p c) eqn:E; inversion H; subst. now constructor.
  - assert (K : forall t, matches (Seq (deriv c r1) r2) t ->
                          matches (Seq r1 r2) (String c t)).
    { intros t Ht. inversion Ht; subst.
      change (String c (u ++ v)%string) with (String c u ++ v)%string.
      constructor; auto. }
    destruct (nullable r1) eqn:N; [|now apply K].
    inversion H; subst; [now apply K|].
    change (String c s) with (EmptyString ++ String c s)%string.
    constructor; [now apply nullable_matches | auto].
  - inversion H; subst; [apply m_or_l | apply m_or_r]; auto.
  - inversion H; subst. constructor; auto.
Qed.

Lemma deriv_complete (r : regex) (w : string) :
  matches r w -> forall c s, w = String c s -> matches (deriv c r) s.
Proof.
  induction 1 as [|p d Hp|r1 r2 u v H1 IH1 H2 IH2|r1 r2 u H IH|r1 r2 u H IH
                  | |r d u v H1 IH1 H2 IH2]; intros c s E; simpl.
  - discriminate.
  - injection E as -> <-. rewrite Hp. constructor.
  - destruct u as [|x u]; simpl in E.
    + apply nullable_matches in H1. rewrite H1. apply m_or_r. now apply IH2.
    + injection E as -> <-.
      assert (K : matches (Seq (deriv c r1) r2) (u ++ v)).
      { constructor; [now apply IH1 | assumption]. }
      destruct (nullable r1); [now apply m_or_l | assumption].
  - apply m_or_l. now apply IH.
  - apply m_or_r. now apply IH.
  - discriminate.
  - injection E as -> <-. constructor; [now apply IH1 | assumption].
Qed.

Lemma deriv_matches (c : ascii) (r : regex) (s : string) :
  matches (deriv c r) s <-> matches r (String c s).
Proof.
  split; [apply deriv_sound | intros H; now apply (deriv_complete _ _ H)].
Qed.

Lemma match_prefix_spec (s : string) :
  forall r, match_prefix r s = true <->
            exists u v, s = (u ++ v)%string /\ matches r u.
Proof.
  induction s as [|c s IH]; intros r; simpl.
  - rewrite orb_false_r, nullable_matches. split.
    + intros H. now exists EmptyString, EmptyString.
    + intros (u & v & E & H). symmetry in E.
      apply append_eq_empty in E as [-> _]. assumption.
  - rewrite orb_true_iff, nullable_matches, IH. split.
    + intros [H | (u & v & -> & H)].
      * now exists EmptyString, (String c s).
      * exists (String c u), v. split; [reflexivity | now apply deriv_matches].
    + intros (u & v & E & H). destruct u as [|x u]; [now left | right].
      simpl in E. injection E as <- ->.
      exists u, v. split; [reflexivity | now apply deriv_matches].
Qed.

Lemma match_anywhere_spec (r : regex) (s : string) :
  match_anywhere r s = true <->
  exists a u v, s = (a ++ u ++ v)%string /\ matches r u.
Proof.
  induction s as [|c s IH]; simpl.
  - rewrite orb_false_r, (match_prefix_spec EmptyString r). split.
    + intros (u & v & E & H). now exists EmptyString, u, v.
    + intros (a & u & v & E & H). symmetry in E.
      apply append_eq_empty in E as [-> E]. now exists u, v.
  - rewrite orb_true_iff, IH, (match_prefix_spec (String c s) r). split.
    + intros [(u & v & E & H) | (a & u & v & -> & H)].
      * now exists EmptyString, u, v.
      * now exists (String c a), u, v.
    + intros (a & u & v & E & H). destruct a as [|x a]; simpl in E.
      * left. now exists u, v.
      * right. injection E as <- ->. now exists a, u, v.
Qed.

Lemma literal_matches (w u : string) : matches (literal w) u <-> u = w.
Proof.
  revert u. induction w as [|c w IH]; intros u; simpl.
  - split; intros H; [now inversion H | subst; constructor].
  - split.
    + intros H. inversion H as [| |? ? a b Ha Hb| | | |]; subst.
      inversion Ha; subst. apply IH in Hb. subst.
      match goal with E : Ascii.eqb _ _ = true |- _ =>
        apply Ascii.eqb_eq in E; now subst end.
    + intros ->. change (String c w) with (String c EmptyString ++ w)%string.
      constructor; [constructor; apply Ascii.eqb_refl | now apply IH].
Qed.

(** [level_filt.search(l)] is the test that [level=] occurs in [l]. *)
Lemma search_level_filt (l : string) :
  search level_filt l = true <->
  exists a b, l = (a ++ "level=" ++ b)%string.
Proof.
  unfold search, level_filt; cbn [anchored body].
  rewrite match_anywhere_spec. split.
  - intros (a & u & v & -> & H). apply literal_matches in H. subst. now exists a, v.
  - intros (a & b & ->). exists a, "level=", b.
    split; [reflexivity | now apply literal_matches].
Qed.

Lemma rep_class_head (p : ascii -> bool) (c : ascii) (u : string) :
  matches (Rep (Class p)) (String c u) -> p c = true.
Proof.
  intros H. inversion H as [| | | | | |? ? ? ? H1 H2]; subst.
  now inversion H1.
Qed.

(** [cmnt_filt.search(l)] holds of the lines that are not empty and do not
    begin with [#]: a space before the [#] is taken by [[^#]]. *)
Lemma search_cmnt_filt (l : string) :
  search cmnt_filt l = negb (hash_first l) && negb (String.eqb l EmptyString).
Proof.
  unfold search, cmnt_filt; cbn [anchored body].
  destruct l as [|c l]; [reflexivity|].
  unfold hash_first. simpl String.eqb. rewrite andb_true_r.
  destruct (Ascii.eqb c "#") eqn:Ec; simpl negb.
  - apply Ascii.eqb_eq in Ec. subst c.
    apply not_true_is_false. intros H.
    apply match_prefix_spec in H as (u & v & E & H).
    inversion H as [| |? ? a b Ha Hb| | | |]; subst.
    destruct a as [|x a].
    + inversion Hb; subst. simpl in E. injection E as <- _. discriminate.
    + simpl in E. injection E as <- _.
      apply rep_class_head in Ha. discriminate.
  - apply match_prefix_spec. exists (String c EmptyString), l. split; [reflexivity|].
    change (String c EmptyString) with (EmptyString ++ String c EmptyString)%string.
    constructor; [constructor | constructor; now rewrite Ec].
Qed.

(* ================================================================== *)
(** ** [split] and the value of a directive *)

Lemma split_unfold (sep : ascii) (s : string) :
  split sep s =
  before_first sep s ::
  (if occurs sep s then split sep (after_first sep s) else []).
Proof.
  induction s as [|c s IH]; simpl; [reflexivity|].
  destruct (Ascii.eqb c sep); simpl; [reflexivity|].
  now rewrite IH.
Qed.

Lemma split_length (sep : ascii) (s : string) :
  occurs sep s = true -> (2 <= List.length (split sep s))%nat.
Proof.
  intros H. rewrite split_unfold, H.
  rewrite (split_unfold sep (after_first sep s)). simpl. lia.
Qed.

Lemma split_second (sep : ascii) (s : string) :
  occurs sep s = true ->
  nth_error (split sep s) 1 = Some (before_first sep (after_first sep s)).
Proof.
  intros H. rewrite split_unfold, H.
  now rewrite (split_unfold sep (after_first sep s)).
Qed.

Lemma split_short (sep : ascii) (s : string) :
  occurs sep s = false -> nth_error (split sep s) 1 = None.
Proof. intros H. now rewrite split_unfold, H. Qed.

Lemma before_first_all (sep : ascii) (s : string) :
  occurs sep s = false -> before_first sep s = s.
Proof.
  induction s as [|c s IH]; simpl; [reflexivity|].
  destruct (Ascii.eqb c sep); simpl; [discriminate|].
  intros H. now rewrite IH.
Qed.

Lemma directive_has_equals (l : string) :
  search level_filt l = true -> occurs "=" l = true.
Proof.
  intros H. apply search_level_filt in H as (a & b & ->).
  rewrite !occurs_append. simpl. now rewrite !orb_true_r.
Qed.

(** Without an [=] the index is out of range: the test on [level_filt]
    is what keeps [IndexError] away. *)
Lemma candidate_without_equals (l : string) :
  occurs "=" l = false -> candidate l = raise IndexError.
Proof.
  intros H. unfold candidate, item. now rewrite (split_short _ _ H).
Qed.

Lemma candidate_of_directive (l : string) :
  search level_filt l = true ->
  candidate l = ret (before_first "=" (spec_candidate l)).
Proof.
  intros H. unfold candidate, item, spec_candidate.
  now rewrite (split_second _ _ (directive_has_equals _ H)).
Qed.

(* ================================================================== *)
(** ** The dictionary *)

Lemma mem_lookup (d : list (string * Z)) (k : string) :
  mem k (keys d) = true <-> exists v, lookup d k = Some v.
Proof.
  induction d as [|[k' v'] d IH]; simpl.
  - split; [discriminate | intros [v H]; discriminate].
  - destruct (String.eqb k k'); simpl; [|exact IH].
    split; [now exists v' | reflexivity].
Qed.

Lemma lookup_mem (d : list (string * Z)) (k : string) (v : Z) :
  lookup d k = Some v -> mem k (keys d) = true.
Proof. intros H. apply mem_lookup. now exists v. Qed.

(** The five names, and nothing else, are keys of [log_level]. *)
Lemma log_level_names (k : string) :
  mem k (keys log_level) = true <->
  k = "DEBUG" \/ k = "INFO" \/ k = "WARNING" \/ k = "ERROR" \/ k = "CRITICAL".
Proof.
  unfold mem, keys, log_level. simpl map. simpl existsb.
  rewrite !orb_true_iff, !String.eqb_eq. intuition discriminate.
Qed.

(* ================================================================== *)
(** ** The two [for] loops *)

Lemma first_directive_none (conf_raw : list string) :
  first_directive conf_raw = None <->
  forall l, In l conf_raw -> search level_filt l = false.
Proof.
  unfold first_directive. split.
  - intros H l Hl. now apply (find_none _ _ H).
  - induction conf_raw as [|x xs IH]; simpl; intros H; [reflexivity|].
    rewrite (H x) by now left. apply IH. intros l Hl. apply H. now right.
Qed.

Lemma first_directive_some (conf_raw : list string) (l : string) :
  first_directive conf_raw = Some l -> search level_filt l = true.
Proof. intros H. now apply find_some in H. Qed.

Lemma set_log_level_for_missing (config_file : string) (conf_raw : list string)
    (w : World) :
  first_directive conf_raw = None ->
  set_log_level_for config_file conf_raw w =
  (Val tt,
   mkWorld (level w)
     (records w ++
      [ (logging.CRITICAL, ("Theres no level configuration in " ++ config_file)%string);
        (logging.CRITICAL, "Level has beem set to INFO") ])
     (calls w)).
Proof.
  unfold first_directive.
  induction conf_raw as [|l rest IH]; simpl; intros H.
  - unfold bind, critical, log. simpl. now rewrite <- app_assoc.
  - destruct (search level_filt l); [discriminate | simpl; auto].
Qed.

Lemma set_log_level_for_first (config_file : string) (conf_raw : list string)
    (l : string) :
  first_directive conf_raw = Some l ->
  set_log_level_for config_file conf_raw = set_log_level_for config_file [l].
Proof.
  unfold first_directive.
  induction conf_raw as [|x rest IH]; simpl; intros H; [discriminate|].
  destruct (search level_filt x) eqn:E; simpl.
  - injection H as ->. now rewrite E.
  - auto.
Qed.

Lemma set_log_level_for_valid (config_file : string) (conf_raw : list string)
    (l name : string) (v : Z) (w : World) :
  first_directive conf_raw = Some l ->
  candidate l = ret name ->
  lookup log_level name = Some v ->
  set_log_level_for config_file conf_raw w =
  (Val tt,
   mkWorld v
     (records w ++ [(logging.INFO, ("Log level started as: " ++ name)%string)])
     (calls w)).
Proof.
  intros Hf Hc Hv. rewrite (set_log_level_for_first _ _ _ Hf).
  cbn [set_log_level_for].
  rewrite (first_directive_some _ _ Hf). cbn [negb].
  unfold bind at 1. rewrite Hc. unfold ret at 1.
  rewrite (lookup_mem _ _ _ Hv). unfold getitem. rewrite Hv. reflexivity.
Qed.

Lemma set_log_level_for_invalid (config_file : string) (conf_raw : list string)
    (l name : string) (w : World) :
  first_directive conf_raw = Some l ->
  candidate l = ret name ->
  mem name (keys log_level) = false ->
  set_log_level_for config_file conf_raw w =
  (Val tt,
   mkWorld (level w)
     (records w ++
      [ (logging.CRITICAL,
         ("Bad option in " ++ config_file ++ ". Level: " ++ name
          ++ " is not valid")%string);
        (logging.CRITICAL, "Level has been set to INFO") ])
     (calls w)).
Proof.
  intros Hf Hc Hv. rewrite (set_log_level_for_first _ _ _ Hf).
  cbn [set_log_level_for].
  rewrite (first_directive_some _ _ Hf). cbn [negb].
  unfold bind at 1. rewrite Hc. unfold ret at 1. rewrite Hv.
  unfold bind, critical, log. simpl. now rewrite <- app_assoc.
Qed.

Lemma log_level_thread_for_missing (config_file : string)
    (conf_raw : list string) (w : World) :
  first_directive conf_raw = None ->
  log_level_thread_for config_file conf_raw w =
  (Val tt,
   mkWorld logging.INFO
     (records w ++
      [ (logging.CRITICAL, ("There is no level configuration in " ++ config_file)%string);
        (logging.CRITICAL, "Level has beem set to INFO") ])
     (calls w)).
Proof.
  unfold first_directive.
  induction conf_raw as [|l rest IH]; simpl; intros H.
  - unfold bind, critical, log. simpl. now rewrite <- app_assoc.
  - destruct (search level_filt l); [discriminate | simpl; auto].
Qed.

Lemma log_level_thread_for_first (config_file : string)
    (conf_raw : list string) (l : string) :
  first_directive conf_raw = Some l ->
  log_level_thread_for config_file conf_raw =
  log_level_thread_for config_file [l].
Proof.
  unfold first_directive.
  induction conf_raw as [|x rest IH]; simpl; intros H; [discriminate|].
  destruct (search level_filt x) eqn:E; simpl.
  - injection H as ->. now rewrite E.
  - auto.
Qed.

Lemma log_level_thread_for_valid (config_file : string)
    (conf_raw : list string) (l name : string) (v : Z) (w : World) :
  first_directive conf_raw = Some l ->
  candidate l = ret name ->
  lookup log_level name = Some v ->
  log_level_thread_for config_file conf_raw w =
  (Val tt,
   mkWorld v
     (records w ++ [(logging.INFO, ("Log level changed to: " ++ name)%string)])
     (calls w)).
Proof.
  intros Hf Hc Hv. rewrite (log_level_thread_for_first _ _ _ Hf).
  cbn [log_level_thread_for].
  rewrite (first_directive_some _ _ Hf). cbn [negb].
  unfold bind at 1. rewrite Hc. unfold ret at 1.
  rewrite (lookup_mem _ _ _ Hv). unfold getitem. rewrite Hv. reflexivity.
Qed.

Lemma log_level_thread_for_invalid (config_file : string)
    (conf_raw : list string) (l name : string) (w : World) :
  first_directive conf_raw = Some l ->
  candidate l = ret name ->
  mem name (keys log_level) = false ->
  log_level_thread_for config_file conf_raw w =
  (Val tt,
   mkWorld logging.INFO
     (records w ++
      [ (logging.CRITICAL,
         ("Bad option in " ++ config_file ++ ". Level: " ++ name
          ++ " is not valid")%string);
        (logging.CRITICAL, "Level has been set to INFO") ])
     (calls w)).
Proof.
  intros Hf Hc Hv. rewrite (log_level_thread_for_first _ _ _ Hf).
  cbn [log_level_thread_for].
  rewrite (first_directive_some _ _ Hf). cbn [negb].
  unfold bind at 1. rewrite Hc. unfold ret at 1. rewrite Hv.
  unfold bind, critical, log. simpl. now rewrite <- app_assoc.
Qed.

(** The three ways a list of retained lines can be. *)
Lemma directive_cases (conf_raw : list string) :
  first_directive conf_raw = None
  \/ (exists l name v,
        first_directive conf_raw = Some l /\ candidate l = ret name
        /\ lookup log_level name = Some v)
  \/ (exists l name,
        first_directive conf_raw = Some l /\ candidate l = ret name
        /\ mem name (keys log_level) = false).
Proof.
  destruct (first_directive conf_raw) as [l|] eqn:Hf; [right | now left].
  pose proof (candidate_of_directive l (first_directive_some _ _ Hf)) as Hc.
  set (name := before_first "=" (spec_candidate l)) in *.
  destruct (mem name (keys log_level)) eqn:Hm.
  - left. apply mem_lookup in Hm as [v Hv]. now exists l, name, v.
  - right. now exists l, name.
Qed.

(** Neither loop raises, and neither touches the file system. *)
Lemma set_log_level_for_returns (config_file : string) (conf_raw : list string)
    (w : World) :
  exists w', set_log_level_for config_file conf_raw w = (Val tt, w')
             /\ calls w' = calls w.
Proof.
  destruct (directive_cases conf_raw)
    as [H | [(l & name & v & Hf & Hc & Hv) | (l & name & Hf & Hc & Hm)]].
  - rewrite (set_log_level_for_missing _ _ _ H). eauto.
  - rewrite (set_log_level_for_valid _ _ _ _ _ _ Hf Hc Hv). eauto.
  - rewrite (set_log_level_for_invalid _ _ _ _ _ Hf Hc Hm). eauto.
Qed.

Lemma log_level_thread_for_returns (config_file : string)
    (conf_raw : list string) (w : World) :
  exists w', log_level_thread_for config_file conf_raw w = (Val tt, w')
             /\ calls w' = calls w.
Proof.
  destruct (directive_cases conf_raw)
    as [H | [(l & name & v & Hf & Hc & Hv) | (l & name & Hf & Hc & Hm)]].
  - rewrite (log_level_thread_for_missing _ _ _ H). eauto.
  - rewrite (log_level_thread_for_valid _ _ _ _ _ _ Hf Hc Hv). eauto.
  - rewrite (log_level_thread_for_invalid _ _ _ _ _ Hf Hc Hm). eauto.
Qed.

(* ================================================================== *)
(** ** [set_log_level] and one pass of the thread, case by case *)

Lemma set_log_level_read (config_file text : string) (w : World) :
  set_log_level config_file (Returns text) w =
  set_log_level_for config_file (conf_raw_text text)
    (mkWorld logging.INFO (records w) (calls w ++ [Open])).
Proof. reflexivity. Qed.

Lemma set_log_level_unreadable (config_file : string) (e : exn) (w : World) :
  set_log_level config_file (Raises e) w =
  (SystemExit e, mkWorld logging.INFO (records w) (calls w ++ [Open])).
Proof. reflexivity. Qed.

Lemma pass_stat_fails (config_file : string) (e : exn) (f : outcome string)
    (mod_time : Z) (w : World) :
  log_level_thread_pass config_file (mkTick (Raises e) f) mod_time w =
  (Val mod_time,
   mkWorld (level w) (records w ++ mtime_errors config_file e)
     (calls w ++ [Sleep; Getmtime])).
Proof.
  unfold log_level_thread_pass, mtime_errors. run_monad. reflexivity.
Qed.

Lemma pass_unchanged (config_file : string) (f : outcome string)
    (mod_time : Z) (w : World) :
  log_level_thread_pass config_file (mkTick (Returns mod_time) f) mod_time w =
  (Val mod_time,
   mkWorld (level w) (records w) (calls w ++ [Sleep; Getmtime])).
Proof.
  unfold log_level_thread_pass. run_monad.
  rewrite Z.sub_diag. reflexivity.
Qed.

Lemma pass_read_fails (config_file : string) (curr_mtime : Z) (e : exn)
    (mod_time : Z) (w : World) :
  curr_mtime <> mod_time ->
  log_level_thread_pass config_file
    (mkTick (Returns curr_mtime) (Raises e)) mod_time w =
  (Val curr_mtime,
   mkWorld (level w) (records w ++ read_errors config_file e)
     (calls w ++ [Sleep; Getmtime; Open])).
Proof.
  intros H. unfold log_level_thread_pass, read_errors. run_monad.
  destruct (Z.eqb_spec (curr_mtime - mod_time) 0) as [E|E]; [lia|].
  run_monad. reflexivity.
Qed.

Lemma pass_read (config_file : string) (curr_mtime : Z) (text : string)
    (mod_time : Z) (w : World) :
  curr_mtime <> mod_time ->
  log_level_thread_pass config_file
    (mkTick (Returns curr_mtime) (Returns text)) mod_time w =
  (Val curr_mtime,
   snd (log_level_thread_for config_file (conf_raw_text text)
          (mkWorld (level w) (records w)
             (calls w ++ [Sleep; Getmtime; Open])))).
Proof.
  intros H. unfold log_level_thread_pass. run_monad.
  destruct (Z.eqb_spec (curr_mtime - mod_time) 0) as [E|E]; [lia|].
  run_monad. fold (conf_raw_text text).
  destruct (log_level_thread_for_returns config_file (conf_raw_text text)
              (mkWorld (level w) (records w)
                 (calls w ++ [Sleep; Getmtime; Open]))) as (w' & -> & _).
  reflexivity.
Qed.

(* ================================================================== *)
(** ** The loop over several passes *)

Lemma pass_returns (config_file : string) (t : tick) (mod_time : Z) (w : World) :
  exists mod_time' w',
    log_level_thread_pass config_file t mod_time w = (Val mod_time', w').
Proof.
  destruct t as [[curr_mtime|e] f].
  - destruct (Z.eq_dec curr_mtime mod_time) as [->|Hne].
    + rewrite pass_unchanged. eauto.
    + destruct f as [text|e].
      * rewrite (pass_read _ _ _ _ _ Hne). eauto.
      * rewrite (pass_read_fails _ _ _ _ _ Hne). eauto.
  - rewrite pass_stat_fails. eauto.
Qed.

(** Every pass returns, and begins by sleeping and asking for the
    modification time. *)
Lemma pass_polls (config_file : string) (t : tick) (mod_time : Z) (w : World) :
  exists mod_time' w' rest,
    log_level_thread_pass config_file t mod_time w = (Val mod_time', w')
    /\ calls w' = calls w ++ Sleep :: Getmtime :: rest.
Proof.
  destruct t as [[curr_mtime|e] f].
  - destruct (Z.eq_dec curr_mtime mod_time) as [->|Hne].
    + rewrite pass_unchanged. now eexists _, _, [].
    + destruct f as [text|e].
      * rewrite (pass_read _ _ _ _ _ Hne).
        destruct (log_level_thread_for_returns config_file (conf_raw_text text)
                    (mkWorld (level w) (records w)
                       (calls w ++ [Sleep; Getmtime; Open])))
          as (w' & -> & Hc).
        eexists _, _, [Open]. split; [reflexivity | exact Hc].
      * rewrite (pass_read_fails _ _ _ _ _ Hne). now eexists _, _, [Open].
  - rewrite pass_stat_fails. now eexists _, _, [].
Qed.

Lemma while_app (config_file : string) (before later : list tick) :
  forall mod_time w,
    log_level_thread_while config_file (before ++ later) mod_time w =
    match log_level_thread_while config_file before mod_time w with
    | (Val m, w') => log_level_thread_while config_file later m w'
    | (Exc e, w') => (Exc e, w')
    | (SystemExit e, w') => (SystemExit e, w')
    end.
Proof.
  induction before as [|t before IH]; intros mod_time w; [reflexivity|].
  cbn [app log_level_thread_while]. unfold bind.
  destruct (log_level_thread_pass config_file t mod_time w) as [[m|e|e] w1];
    [apply IH | reflexivity | reflexivity].
Qed.

Lemma while_returns (config_file : string) (ticks : list tick) :
  forall mod_time w, exists mod_time' w',
    log_level_thread_while config_file ticks mod_time w = (Val mod_time', w').
Proof.
  induction ticks as [|t ticks IH]; intros mod_time w.
  - now exists mod_time, w.
  - cbn [log_level_thread_while]. unfold bind at 1.
    destruct (pass_returns config_file t mod_time w) as (m & w1 & ->).
    apply IH.
Qed.

Lemma while_step (config_file : string) (t : tick) (later : list tick)
    (mod_time mod_time' : Z) (w w' : World) :
  log_level_thread_pass config_file t mod_time w = (Val mod_time', w') ->
  log_level_thread_while config_file (t :: later) mod_time w =
  log_level_thread_while config_file later mod_time' w'.
Proof.
  intros H. cbn [log_level_thread_while]. unfold bind at 1. now rewrite H.
Qed.

Lemma while_idle (config_file : string) (curr_mtime : Z) (later : list tick) :
  Forall (fun t => stat t = Returns curr_mtime) later ->
  forall w,
    log_level_thread_while config_file later curr_mtime w =
    (Val curr_mtime,
     mkWorld (level w) (records w)
       (calls w ++ idle_calls (List.length later))).
Proof.
  induction 1 as [|[s f] later Hs _ IH]; intros w.
  - cbn. rewrite app_nil_r. now destruct w.
  - cbn [stat] in Hs. subst s.
    rewrite (while_step _ _ _ _ _ _ _ (pass_unchanged _ _ _ _)).
    rewrite IH. cbn [level records calls List.length idle_calls].
    now rewrite <- app_assoc.
Qed.

Lemma opens_app (a b : list syscall) :
  opens (a ++ b) = (opens a + opens b)%nat.
Proof. unfold opens. now rewrite filter_app, length_app. Qed.

Lemma opens_idle (n : nat) : opens (idle_calls n) = 0%nat.
Proof. induction n; [reflexivity | exact IHn]. Qed.

(* ================================================================== *)
(** ** Comment lines *)

Lemma hash_first_not_retained (l : string) :
  hash_first l = true -> search cmnt_filt l = false.
Proof. intros H. now rewrite search_cmnt_filt, H. Qed.

Lemma conf_raw_of_without (pre post : list string) (l : string) :
  hash_first l = true ->
  conf_raw_of (pre ++ l :: post) = conf_raw_of (pre ++ post).
Proof.
  intros H. unfold conf_raw_of, retained.
  rewrite !filter_app. cbn [filter].
  now rewrite (hash_first_not_retained _ H).
Qed.

(* ================================================================== *)
(** ** The value of a directive (claims C1 and C10) *)

(** Claim C10.  A line in which [level_filt] finds [level=] contains an
    [=], so [l.split('=')] has at least two elements and [[1]] is in
    range: the expression [l.split('=')[1]], shared by [set_log_level] and
    [log_level_thread], yields a value and raises no [IndexError], and the
    [for] loop of either function returns on every list of lines. *)
Theorem second_piece_in_range (l : string) :
  search level_filt l = true ->
  occurs "=" l = true
  /\ (2 <= List.length (split "=" l))%nat
  /\ (exists name, candidate l = ret name)
  /\ (forall w, fst (candidate l w) <> Exc IndexError)
  /\ (forall config_file conf_raw w,
        fst (set_log_level_for config_file conf_raw w) = Val tt
        /\ fst (log_level_thread_for config_file conf_raw w) = Val tt).
Proof.
  intros H. pose proof (directive_has_equals l H) as Ho.
  split; [assumption|]. split; [now apply split_length|].
  rewrite (candidate_of_directive l H).
  split; [eauto|]. split; [intros w; discriminate|].
  intros config_file conf_raw w.
  destruct (set_log_level_for_returns config_file conf_raw w) as (w1 & -> & _).
  destruct (log_level_thread_for_returns config_file conf_raw w) as (w2 & -> & _).
  split; reflexivity.
Qed.

(** Claim C10 at the line [xlevel=]: two pieces, the second one empty. *)
Lemma second_piece_in_range_witness :
  search level_filt "xlevel=" = true
  /\ (2 <= List.length (split "=" "xlevel="))%nat.
Proof.
  split; [reflexivity|].
  apply (second_piece_in_range "xlevel="). reflexivity.
Defined.

(** Claim C1 as stated fails: on the line [level=INFO=x] the text after the
    first [=] is [INFO=x], but the value both functions validate is [INFO];
    it is a key of [log_level], and the logger is set to INFO with the
    informational record of a valid directive. *)
Lemma candidate_counterexample :
  search level_filt "level=INFO=x" = true
  /\ spec_candidate "level=INFO=x" = "INFO=x"
  /\ candidate "level=INFO=x" fresh = (Val "INFO", fresh)
  /\ fst (candidate "level=INFO=x" fresh) <> Val (spec_candidate "level=INFO=x")
  /\ mem "INFO" (keys log_level) = true
  /\ mem "INFO=x" (keys log_level) = false
  /\ set_log_level "gem.conf" (Returns (unlines ["level=INFO=x"])) fresh =
     (Val tt,
      mkWorld logging.INFO
        [(logging.INFO, "Log level started as: INFO")] [Open])
  /\ log_level_thread_pass "gem.conf"
       (mkTick (Returns 2) (Returns (unlines ["level=INFO=x"]))) 1
       (mkWorld logging.DEBUG [] []) =
     (Val 2,
      mkWorld logging.INFO
        [(logging.INFO, "Log level changed to: INFO")]
        [Sleep; Getmtime; Open]).
Proof.
  repeat split; try reflexivity. cbn. discriminate.
Qed.

(** Claim C1, as amended.  For every line [l] that contains [level=], the
    value both functions validate is the text after the first [=] of [l] up
    to the next [=], or to the end of [l] when there is no other [=].  When
    [l] is the first such line among the retained ones, that value alone
    decides what [set_log_level] and [log_level_thread] do. *)
Theorem directive_value_is_second_piece (l : string) :
  search level_filt l = true ->
  let name := before_first "=" (spec_candidate l) in
  candidate l = ret name
  /\ forall config_file conf_raw w,
       first_directive conf_raw = Some l ->
       (forall v, lookup log_level name = Some v ->
          set_log_level_for config_file conf_raw w =
          (Val tt,
           mkWorld v
             (records w ++
              [(logging.INFO, ("Log level started as: " ++ name)%string)])
             (calls w))
          /\ log_level_thread_for config_file conf_raw w =
             (Val tt,
              mkWorld v
                (records w ++
                 [(logging.INFO, ("Log level changed to: " ++ name)%string)])
                (calls w)))
       /\ (mem name (keys log_level) = false ->
            set_log_level_for config_file conf_raw w =
            (Val tt,
             mkWorld (level w)
               (records w ++
                [ (logging.CRITICAL,
                   ("Bad option in " ++ config_file ++ ". Level: " ++ name
                    ++ " is not valid")%string);
                  (logging.CRITICAL, "Level has been set to INFO") ])
               (calls w))
            /\ log_level_thread_for config_file conf_raw w =
               (Val tt,
                mkWorld logging.INFO
                  (records w ++
                   [ (logging.CRITICAL,
                      ("Bad option in " ++ config_file ++ ". Level: " ++ name
                       ++ " is not valid")%string);
                     (logging.CRITICAL, "Level has been set to INFO") ])
                  (calls w))).
Proof.
  intros Hs name. pose proof (candidate_of_directive l Hs) as Hc.
  fold name in Hc. split; [exact Hc|].
  intros config_file conf_raw w Hf. split.
  - intros v Hv. split.
    + exact (set_log_level_for_valid _ _ _ _ _ _ Hf Hc Hv).
    + exact (log_level_thread_for_valid _ _ _ _ _ _ Hf Hc Hv).
  - intros Hm. split.
    + exact (set_log_level_for_invalid _ _ _ _ _ Hf Hc Hm).
    + exact (log_level_thread_for_invalid _ _ _ _ _ Hf Hc Hm).
Qed.

(** Claim C1, as amended, at the line [level=INFO=x]: the value validated
    is [INFO]. *)
Lemma directive_value_is_second_piece_witness :
  search level_filt "level=INFO=x" = true
  /\ candidate "level=INFO=x" = ret "INFO".
Proof.
  split; [reflexivity|].
  exact (proj1 (directive_value_is_second_piece "level=INFO=x" eq_refl)).
Defined.

(** When nothing but the value follows the first [=], the wording of the
    specification and the code agree. *)
Lemma candidate_without_second_equals (l : string) :
  search level_filt l = true ->
  occurs "=" (spec_candidate l) = false ->
  candidate l = ret (spec_candidate l).
Proof.
  intros H Hn. rewrite (candidate_of_directive l H).
  now rewrite (before_first_all _ _ Hn).
Qed.

(* ================================================================== *)
(** ** Comment lines (claim C2) *)

(** Claim C2 as stated fails: a line made of a tab, [#level=CRITICAL] and
    the end of line is a comment line in the sense of the claim; [cmnt_filt]
    retains it, and both functions honor it as a directive. *)
Lemma comment_counterexample :
  spec_comment_line (String TAB "#level=CRITICAL" ++ NL) = true
  /\ search cmnt_filt (String TAB "#level=CRITICAL" ++ NL) = true
  /\ set_log_level "gem.conf"
       (Returns (unlines [String TAB "#level=CRITICAL"])) fresh =
     (Val tt,
      mkWorld logging.CRITICAL
        [(logging.INFO, "Log level started as: CRITICAL")] [Open])
  /\ log_level_thread_pass "gem.conf"
       (mkTick (Returns 2) (Returns (unlines [String TAB "#level=CRITICAL"]))) 1
       (mkWorld logging.INFO [] []) =
     (Val 2,
      mkWorld logging.CRITICAL
        [(logging.INFO, "Log level changed to: CRITICAL")]
        [Sleep; Getmtime; Open]).
Proof. repeat split; reflexivity. Qed.

(** Claim C2, as amended.  A line whose first character is [#] is not
    retained by either function: the text without that line is parsed the
    same way, by [set_log_level] and by a pass of [log_level_thread], so a
    line that begins with [#] and contains [level=CRITICAL] is never
    honored. *)
Theorem hash_line_excluded
    (config_file text text' : string) (pre post : list string) (l : string) :
  readlines (universal_newlines text) = pre ++ l :: post ->
  readlines (universal_newlines text') = pre ++ post ->
  hash_first l = true ->
  ~ In l (retained (readlines (universal_newlines text)))
  /\ conf_raw_text text = conf_raw_text text'
  /\ (forall w,
        set_log_level config_file (Returns text) w =
        set_log_level config_file (Returns text') w)
  /\ (forall curr_mtime mod_time w,
        log_level_thread_pass config_file
          (mkTick (Returns curr_mtime) (Returns text)) mod_time w =
        log_level_thread_pass config_file
          (mkTick (Returns curr_mtime) (Returns text')) mod_time w).
Proof.
  intros Ht Ht' Hl.
  assert (E : conf_raw_text text = conf_raw_text text').
  { unfold conf_raw_text. rewrite Ht, Ht'. now apply conf_raw_of_without. }
  split.
  { unfold retained. rewrite filter_In.
    intros [_ H]. rewrite (hash_first_not_retained _ Hl) in H. discriminate. }
  split; [exact E|]. split.
  - intros w. now rewrite !set_log_level_read, E.
  - intros curr_mtime mod_time w.
    destruct (Z.eq_dec curr_mtime mod_time) as [->|Hne].
    + now rewrite !pass_unchanged.
    + now rewrite !(pass_read _ _ _ _ _ Hne), E.
Qed.

(** Claim C2, as amended, at the text of the two lines [#level=CRITICAL]
    and [level=DEBUG]: the level becomes DEBUG, as without the first line. *)
Lemma hash_line_excluded_witness :
  hash_first ("#level=CRITICAL" ++ NL) = true
  /\ set_log_level "gem.conf"
       (Returns (unlines ["#level=CRITICAL"; "level=DEBUG"])) fresh =
     set_log_level "gem.conf" (Returns (unlines ["level=DEBUG"])) fresh.
Proof.
  split; [reflexivity|].
  apply (hash_line_excluded "gem.conf"
           (unlines ["#level=CRITICAL"; "level=DEBUG"])
           (unlines ["level=DEBUG"])
           [] [("level=DEBUG" ++ NL)%string] ("#level=CRITICAL" ++ NL));
    reflexivity.
Defined.

(** A [#] after spaces: [[ ]*] can give a space back to [[^#]], so the line
    is retained as well. *)
Example spaces_before_hash_retained :
  search cmnt_filt ("  #level=CRITICAL" ++ NL) = true
  /\ conf_raw_text ("  #level=CRITICAL" ++ NL) = ["#level=CRITICAL"].
Proof. split; reflexivity. Qed.

(* ================================================================== *)
(** ** Errors inside the thread (claims C3 and C5) *)

(** Claim C3 as stated fails: the [os.path.getmtime] before [while True] is
    in no [try] block.  When it raises, the thread ends with that exception
    before its first pass and nothing is handed to the logger. *)
Lemma thread_start_counterexample :
  log_level_thread "gem.conf" (Raises (EnvError "No such file"))
    [mkTick (Returns 1) (Returns (unlines ["level=DEBUG"]))] fresh =
  (Exc (EnvError "No such file"), mkWorld 0 [] [Getmtime]).
Proof. reflexivity. Qed.

(** Claim C3, as amended.  Once the loop runs, no pass ends the thread,
    whatever the file system answers: after any passes [before], the next
    pass [t] returns and the loop goes on.  When [os.path.getmtime] raises
    [e] in that pass, or the modification time is new and [open] or
    [readlines] raises [e], the three error records with [str(e)] are handed
    to the logger in that pass. *)
Theorem loop_survives_errors
    (config_file : string) (before : list tick) (t : tick) (mod_time : Z)
    (w : World) :
  exists m1 w1 m2 w2,
    log_level_thread_while config_file before mod_time w = (Val m1, w1)
    /\ log_level_thread_pass config_file t m1 w1 = (Val m2, w2)
    /\ log_level_thread_while config_file (before ++ [t]) mod_time w
       = (Val m2, w2)
    /\ (forall e, stat t = Raises e ->
          records w2 = records w1 ++ mtime_errors config_file e)
    /\ (forall curr_mtime e,
          stat t = Returns curr_mtime -> curr_mtime <> m1 ->
          file t = Raises e ->
          records w2 = records w1 ++ read_errors config_file e).
Proof.
  destruct (while_returns config_file before mod_time w) as (m1 & w1 & H1).
  destruct (pass_returns config_file t m1 w1) as (m2 & w2 & H2).
  exists m1, w1, m2, w2. split; [exact H1|]. split; [exact H2|]. split.
  { rewrite while_app, H1. cbn [log_level_thread_while].
    unfold bind. now rewrite H2. }
  destruct t as [s f]. cbn [stat file]. split.
  - intros e ->. rewrite pass_stat_fails in H2. now inversion H2.
  - intros curr_mtime e -> Hne ->.
    rewrite (pass_read_fails _ _ _ _ _ Hne) in H2. now inversion H2.
Qed.

(** Claim C3, as amended, at a pass in which [os.path.getmtime] raises,
    after one in which reading the changed file raised. *)
Lemma loop_survives_errors_witness :
  log_level_thread_while "gem.conf"
    ([mkTick (Returns 2) (Raises (EnvError "locked"))]
     ++ [mkTick (Raises (EnvError "gone")) (Returns EmptyString)]) 1 fresh =
  (Val 2,
   mkWorld 0
     (read_errors "gem.conf" (EnvError "locked")
      ++ mtime_errors "gem.conf" (EnvError "gone"))
     [Sleep; Getmtime; Open; Sleep; Getmtime]).
Proof.
  destruct (loop_survives_errors "gem.conf"
              [mkTick (Returns 2) (Raises (EnvError "locked"))]
              (mkTick (Raises (EnvError "gone")) (Returns EmptyString)) 1 fresh)
    as (m1 & w1 & m2 & w2 & H1 & H2 & H3 & _).
  rewrite H3. clear H3. cbv in H1. inversion H1; subst m1 w1; clear H1.
  cbv in H2. inversion H2; subst m2 w2; clear H2. reflexivity.
Defined.

(** Claim C5.  In a pass in which [os.path.getmtime] raises [e], and in a
    pass in which the modification time is new and opening or reading the
    file raises [e], the error is handed to the logger in three records and
    the level of the logger stays what it was.  The loop goes on: the pass
    of the next tick returns as well, and begins by sleeping and asking for
    the modification time again. *)
Theorem transient_error_logged_level_kept
    (config_file : string) (e : exn) (next : tick) (later : list tick)
    (mod_time : Z) (w : World) :
  (forall f,
     let t := mkTick (Raises e) f in
     let w' := mkWorld (level w) (records w ++ mtime_errors config_file e)
                 (calls w ++ [Sleep; Getmtime]) in
     log_level_thread_pass config_file t mod_time w = (Val mod_time, w')
     /\ level w' = level w
     /\ exists m2 w2 rest,
          log_level_thread_pass config_file next mod_time w' = (Val m2, w2)
          /\ calls w2 = calls w' ++ Sleep :: Getmtime :: rest
          /\ log_level_thread_while config_file (t :: next :: later) mod_time w
             = log_level_thread_while config_file later m2 w2)
  /\ (forall curr_mtime, curr_mtime <> mod_time ->
        let t := mkTick (Returns curr_mtime) (Raises e) in
        let w' := mkWorld (level w) (records w ++ read_errors config_file e)
                    (calls w ++ [Sleep; Getmtime; Open]) in
        log_level_thread_pass config_file t mod_time w = (Val curr_mtime, w')
        /\ level w' = level w
        /\ exists m2 w2 rest,
             log_level_thread_pass config_file next curr_mtime w' = (Val m2, w2)
             /\ calls w2 = calls w' ++ Sleep :: Getmtime :: rest
             /\ log_level_thread_while config_file (t :: next :: later)
                  mod_time w
                = log_level_thread_while config_file later m2 w2).
Proof.
  split.
  - intros f t w'. pose proof (pass_stat_fails config_file e f mod_time w) as H.
    split; [exact H|]. split; [reflexivity|].
    destruct (pass_polls config_file next mod_time w') as (m2 & w2 & rest & H2 & Hc).
    exists m2, w2, rest. split; [exact H2|]. split; [exact Hc|].
    rewrite (while_step _ _ _ _ _ _ _ H). now apply while_step.
  - intros curr_mtime Hne t w'.
    pose proof (pass_read_fails config_file curr_mtime e mod_time w Hne) as H.
    split; [exact H|]. split; [reflexivity|].
    destruct (pass_polls config_file next curr_mtime w') as (m2 & w2 & rest & H2 & Hc).
    exists m2, w2, rest. split; [exact H2|]. split; [exact Hc|].
    rewrite (while_step _ _ _ _ _ _ _ H). now apply while_step.
Qed.

(** Claim C5 at a logger set to DEBUG, with the file locked after a change
    from time 1 to time 2. *)
Lemma transient_error_logged_level_kept_witness :
  2 <> 1
  /\ log_level_thread_pass "gem.conf"
       (mkTick (Returns 2) (Raises (EnvError "locked"))) 1
       (mkWorld logging.DEBUG [] []) =
     (Val 2,
      mkWorld logging.DEBUG (read_errors "gem.conf" (EnvError "locked"))
        [Sleep; Getmtime; Open]).
Proof.
  split; [discriminate|].
  apply (proj2 (transient_error_logged_level_kept
                  "gem.conf" (EnvError "locked")
                  (mkTick (Returns 3) (Returns (unlines ["level=ERROR"]))) [] 1
                  (mkWorld logging.DEBUG [] [])) 2).
  discriminate.
Defined.

(* ================================================================== *)
(** ** The first reading (claim C4) *)

(** What the loop of [set_log_level] does to the logger does not depend on
    the calls made before. *)
Lemma set_log_level_for_frame (config_file : string) (conf_raw : list string) :
  exists (upd : Z -> Z) (rs : list record),
    forall w,
      set_log_level_for config_file conf_raw w =
      (Val tt, mkWorld (upd (level w)) (records w ++ rs) (calls w)).
Proof.
  destruct (directive_cases conf_raw)
    as [H | [(l & name & v & Hf & Hc & Hv) | (l & name & Hf & Hc & Hm)]].
  - eexists (fun z => z), _. intros w.
    now rewrite (set_log_level_for_missing _ _ _ H).
  - eexists (fun _ => v), _. intros w.
    now rewrite (set_log_level_for_valid _ _ _ _ _ _ Hf Hc Hv).
  - eexists (fun z => z), _. intros w.
    now rewrite (set_log_level_for_invalid _ _ _ _ _ Hf Hc Hm).
Qed.

Lemma init_timertng_log_unfold
    (config_file log_file : string) (rot_hour : Z) (file : outcome string)
    (w : World) :
  0 <= rot_hour <= 23 ->
  init_timertng_log config_file log_file rot_hour (Returns tt) file w =
  (set_log_level config_file file ;; perform StartThread (Returns tt))
    (mkWorld (level w) (records w) (calls w ++ [AddHandler log_file rot_hour])).
Proof.
  intros Hh.
  assert (Hd : (0 <=? rot_hour) && (rot_hour <=? 23) = true).
  { apply andb_true_iff. split; apply Z.leb_le; lia. }
  unfold init_timertng_log, dt_time. rewrite Hd. reflexivity.
Qed.

(** Claim C4.  When the configuration file cannot be opened or read in the
    first, synchronous [set_log_level], [sys.exit] ends [init_timertng_log]
    there: no record is handed to the logger and the thread is not started.
    A file that can be read never does so, whatever its text:
    [set_log_level] returns and the thread is started. *)
Theorem unreadable_at_start_exits
    (config_file log_file : string) (rot_hour : Z) (w : World) :
  0 <= rot_hour <= 23 ->
  (forall e,
     set_log_level config_file (Raises e) w =
     (SystemExit e, mkWorld logging.INFO (records w) (calls w ++ [Open]))
     /\ init_timertng_log config_file log_file rot_hour (Returns tt)
          (Raises e) w =
        (SystemExit e,
         mkWorld logging.INFO (records w)
           (calls w ++ [AddHandler log_file rot_hour; Open])))
  /\ (forall text, exists w',
        set_log_level config_file (Returns text) w = (Val tt, w')
        /\ init_timertng_log config_file log_file rot_hour (Returns tt)
             (Returns text) w =
           (Val tt,
            mkWorld (level w') (records w')
              (calls w ++ [AddHandler log_file rot_hour; Open; StartThread]))).
Proof.
  intros Hh. split.
  - intros e. split; [reflexivity|].
    rewrite (init_timertng_log_unfold _ _ _ _ _ Hh). unfold bind at 1.
    rewrite set_log_level_unreadable. cbn [records calls].
    now rewrite <- app_assoc.
  - intros text.
    destruct (set_log_level_for_frame config_file (conf_raw_text text))
      as (upd & rs & H).
    exists (mkWorld (upd logging.INFO) (records w ++ rs) (calls w ++ [Open])).
    split.
    + now rewrite set_log_level_read, H.
    + rewrite (init_timertng_log_unfold _ _ _ _ _ Hh). unfold bind at 1.
      rewrite set_log_level_read, H. unfold perform.
      cbn [level records calls]. now rewrite <- !app_assoc.
Qed.

(** Claim C4 at rotation hour 3 with a file that does not exist. *)
Lemma unreadable_at_start_exits_witness :
  0 <= 3 <= 23
  /\ init_timertng_log "gem.conf" "gem.log" 3 (Returns tt)
       (Raises (EnvError "No such file")) fresh =
     (SystemExit (EnvError "No such file"),
      mkWorld logging.INFO [] [AddHandler "gem.log" 3; Open]).
Proof.
  split; [lia|].
  apply (proj1 (unreadable_at_start_exits "gem.conf" "gem.log" 3 fresh
                  ltac:(lia))
               (EnvError "No such file")).
Defined.

(* ================================================================== *)
(** ** The fall back to INFO (claim C6) *)

(** Claim C6.  When no retained line contains [level=], and when the value
    of the first directive is not a key of [log_level], the level of the
    logger ends as INFO, after [set_log_level] and after a pass of
    [log_level_thread] that reads the file again.  Both cases hand two
    records of level CRITICAL to the logger, and the first record of the one
    case is never the first record of the other. *)
Theorem missing_or_invalid_sets_info
    (config_file text : string) (curr_mtime mod_time : Z) (w : World) :
  curr_mtime <> mod_time ->
  let t := mkTick (Returns curr_mtime) (Returns text) in
  (first_directive (conf_raw_text text) = None ->
     set_log_level config_file (Returns text) w =
     (Val tt,
      mkWorld logging.INFO
        (records w ++
         [ (logging.CRITICAL,
            ("Theres no level configuration in " ++ config_file)%string);
           (logging.CRITICAL, "Level has beem set to INFO") ])
        (calls w ++ [Open]))
     /\ log_level_thread_pass config_file t mod_time w =
        (Val curr_mtime,
         mkWorld logging.INFO
           (records w ++
            [ (logging.CRITICAL,
               ("There is no level configuration in " ++ config_file)%string);
              (logging.CRITICAL, "Level has beem set to INFO") ])
           (calls w ++ [Sleep; Getmtime; Open])))
  /\ (forall l name,
        first_directive (conf_raw_text text) = Some l ->
        candidate l = ret name ->
        mem name (keys log_level) = false ->
        let bad := ("Bad option in " ++ config_file ++ ". Level: " ++ name
                    ++ " is not valid")%string in
        set_log_level config_file (Returns text) w =
        (Val tt,
         mkWorld logging.INFO
           (records w ++
            [ (logging.CRITICAL, bad);
              (logging.CRITICAL, "Level has been set to INFO") ])
           (calls w ++ [Open]))
        /\ log_level_thread_pass config_file t mod_time w =
           (Val curr_mtime,
            mkWorld logging.INFO
              (records w ++
               [ (logging.CRITICAL, bad);
                 (logging.CRITICAL, "Level has been set to INFO") ])
              (calls w ++ [Sleep; Getmtime; Open]))
        /\ (forall other_file,
              bad <> ("Theres no level configuration in " ++ other_file)%string
              /\ bad <> ("There is no level configuration in " ++ other_file)%string)).
Proof.
  intros Hne t. split.
  - intros Hf. split.
    + rewrite set_log_level_read.
      now rewrite (set_log_level_for_missing _ _ _ Hf).
    + unfold t. rewrite (pass_read _ _ _ _ _ Hne).
      now rewrite (log_level_thread_for_missing _ _ _ Hf).
  - intros l name Hf Hc Hm bad. split; [|split].
    + rewrite set_log_level_read.
      now rewrite (set_log_level_for_invalid _ _ _ _ _ Hf Hc Hm).
    + unfold t. rewrite (pass_read _ _ _ _ _ Hne).
      now rewrite (log_level_thread_for_invalid _ _ _ _ _ Hf Hc Hm).
    + intros other_file. unfold bad. cbn. split; discriminate.
Qed.

(** Claim C6 at a logger set to DEBUG and a text with no directive, read
    again after a change from time 1 to time 2. *)
Lemma missing_or_invalid_sets_info_witness :
  2 <> 1
  /\ first_directive (conf_raw_text (unlines ["# no directive"; "verbose"])) = None
  /\ log_level_thread_pass "gem.conf"
       (mkTick (Returns 2) (Returns (unlines ["# no directive"; "verbose"]))) 1
       (mkWorld logging.DEBUG [] []) =
     (Val 2,
      mkWorld logging.INFO
        [ (logging.CRITICAL, "There is no level configuration in gem.conf");
          (logging.CRITICAL, "Level has beem set to INFO") ]
        [Sleep; Getmtime; Open]).
Proof.
  split; [discriminate|]. split; [reflexivity|].
  apply (proj1 (missing_or_invalid_sets_info
                  "gem.conf" (unlines ["# no directive"; "verbose"]) 2 1
                  (mkWorld logging.DEBUG [] []) ltac:(discriminate))).
  reflexivity.
Defined.

(* ================================================================== *)
(** ** A valid directive (claim C7) *)

Lemma log_level_entry (name : string) (v : Z) :
  In (name, v) log_level -> lookup log_level name = Some v.
Proof.
  unfold log_level. cbn [In].
  intros [H|[H|[H|[H|[H|[]]]]]]; injection H as <- <-; reflexivity.
Qed.

(** Claim C7.  For each entry of [log_level], with name [name] and level
    [v]: when a pass of [log_level_thread] finds a new modification time and
    the value of the first directive of the file is [name], it sets the
    level of the logger to [v] and hands it one record of level INFO whose
    text ends with [name]. *)
Theorem valid_directive_applied
    (config_file text l name : string) (v curr_mtime mod_time : Z) (w : World) :
  In (name, v) log_level ->
  curr_mtime <> mod_time ->
  first_directive (conf_raw_text text) = Some l ->
  candidate l = ret name ->
  log_level_thread_pass config_file
    (mkTick (Returns curr_mtime) (Returns text)) mod_time w =
  (Val curr_mtime,
   mkWorld v
     (records w ++ [(logging.INFO, ("Log level changed to: " ++ name)%string)])
     (calls w ++ [Sleep; Getmtime; Open])).
Proof.
  intros Hin Hne Hf Hc. apply log_level_entry in Hin.
  rewrite (pass_read _ _ _ _ _ Hne).
  now rewrite (log_level_thread_for_valid _ _ _ _ _ _ Hf Hc Hin).
Qed.

(** Claim C7 at [level=ERROR], from a logger set to INFO. *)
Lemma valid_directive_applied_witness :
  In ("ERROR", logging.ERROR) log_level
  /\ log_level_thread_pass "gem.conf"
       (mkTick (Returns 2) (Returns (unlines ["level=ERROR"]))) 1
       (mkWorld logging.INFO [] []) =
     (Val 2,
      mkWorld logging.ERROR
        [(logging.INFO, "Log level changed to: ERROR")]
        [Sleep; Getmtime; Open]).
Proof.
  split; [cbn; tauto|].
  apply (valid_directive_applied "gem.conf" (unlines ["level=ERROR"])
           "level=ERROR" "ERROR" logging.ERROR 2 1
           (mkWorld logging.INFO [] [])).
  - cbn; tauto.
  - discriminate.
  - reflexivity.
  - reflexivity.
Defined.

(* ================================================================== *)
(** ** The modification time as a guard (claims C8 and C9) *)

(** Claim C8.  In a pass in which [os.path.getmtime] returns the stored
    modification time, [log_level_thread] sleeps, asks for the time and
    does nothing else: the file is not opened, whatever it holds, no record
    is handed to the logger, and the level and the stored time stay what
    they were. *)
Theorem unchanged_mtime_does_nothing
    (config_file : string) (f : outcome string) (mod_time : Z) (w : World) :
  exists w',
    log_level_thread_pass config_file (mkTick (Returns mod_time) f) mod_time w
    = (Val mod_time, w')
    /\ level w' = level w
    /\ records w' = records w
    /\ calls w' = calls w ++ [Sleep; Getmtime]
    /\ opens (calls w') = opens (calls w).
Proof.
  eexists. split; [apply pass_unchanged|]. cbn [level records calls].
  repeat split. rewrite opens_app. cbn. lia.
Qed.

(** Claim C9.  In a pass that finds a new modification time, the stored
    time becomes the new one whether the reading that follows succeeds or
    raises.  When it raises and the passes after it find the same time, they
    do not open the file again and leave the logger as it is. *)
Theorem mtime_stored_before_read
    (config_file : string) (curr_mtime mod_time : Z) (f : outcome string)
    (w : World) :
  curr_mtime <> mod_time ->
  exists w',
    log_level_thread_pass config_file (mkTick (Returns curr_mtime) f) mod_time w
    = (Val curr_mtime, w')
    /\ calls w' = calls w ++ [Sleep; Getmtime; Open]
    /\ (forall e later,
          f = Raises e ->
          Forall (fun t => stat t = Returns curr_mtime) later ->
          exists w'',
            log_level_thread_while config_file later curr_mtime w'
            = (Val curr_mtime, w'')
            /\ level w'' = level w
            /\ records w'' = records w ++ read_errors config_file e
            /\ opens (calls w'') = opens (calls w')).
Proof.
  intros Hne. destruct f as [text|e0].
  - destruct (log_level_thread_for_returns config_file (conf_raw_text text)
                (mkWorld (level w) (records w)
                   (calls w ++ [Sleep; Getmtime; Open]))) as (w' & Hw & Hc).
    exists w'. split; [|split].
    + now rewrite (pass_read _ _ _ _ _ Hne), Hw.
    + exact Hc.
    + intros e later E. discriminate E.
  - eexists. split; [apply (pass_read_fails _ _ _ _ _ Hne)|].
    split; [reflexivity|].
    intros e later E Hall. injection E as <-.
    eexists. split; [apply (while_idle _ _ _ Hall)|].
    cbn [level records calls]. repeat split.
    rewrite (opens_app _ (idle_calls _)), opens_idle. lia.
Qed.

(** Claim C9 at a change from time 1 to time 2 with the file locked, then
    two passes at time 2 with the file readable again: the file is opened
    once in all and the level is not set. *)
Lemma mtime_stored_before_read_witness :
  2 <> 1
  /\ exists w' w'',
       log_level_thread_pass "gem.conf"
         (mkTick (Returns 2) (Raises (EnvError "locked"))) 1 fresh
       = (Val 2, w')
       /\ log_level_thread_while "gem.conf"
            [ mkTick (Returns 2) (Returns (unlines ["level=DEBUG"]));
              mkTick (Returns 2) (Returns (unlines ["level=DEBUG"])) ] 2 w'
          = (Val 2, w'')
       /\ level w'' = 0
       /\ opens (calls w'') = 1%nat.
Proof.
  split; [discriminate|].
  destruct (mtime_stored_before_read "gem.conf" 2 1
              (Raises (EnvError "locked")) fresh ltac:(discriminate))
    as (w' & H & Hc & Hlater).
  destruct (Hlater (EnvError "locked")
              [ mkTick (Returns 2) (Returns (unlines ["level=DEBUG"]));
                mkTick (Returns 2) (Returns (unlines ["level=DEBUG"])) ]
              eq_refl)
    as (w'' & Hw & Hl & _ & Ho).
  { repeat constructor. }
  exists w', w''. split; [exact H|]. split; [exact Hw|]. split; [exact Hl|].
  rewrite Ho, Hc. reflexivity.
Defined.

(* ================================================================== *)
(** ** Scenarios *)

(** Of two directives the first one counts. *)
Example first_directive_wins :
  set_log_level "gem.conf"
    (Returns (unlines ["level=WARNING"; "level=ERROR"])) fresh =
  (Val tt,
   mkWorld logging.WARNING
     [(logging.INFO, "Log level started as: WARNING")] [Open]).
Proof. reflexivity. Qed.

(** A value is compared as it is written: case and a trailing comment
    count. *)
Example value_compared_literally :
  snd (set_log_level "gem.conf" (Returns (unlines ["level=debug"])) fresh) =
  mkWorld logging.INFO
    [ (logging.CRITICAL, "Bad option in gem.conf. Level: debug is not valid");
      (logging.CRITICAL, "Level has been set to INFO") ] [Open]
  /\ level (snd (set_log_level "gem.conf"
                   (Returns (unlines ["level=DEBUG#verbose"])) fresh)) =
     logging.INFO.
Proof. split; reflexivity. Qed.

(** The file says DEBUG at the start, then [garbage], is then removed, and
    comes back with ERROR. *)
Example reload_scenario :
  (set_log_level "gem.conf" (Returns (unlines ["level=DEBUG"])) ;;
   log_level_thread "gem.conf" (Returns 1)
     [ mkTick (Returns 1) (Returns (unlines ["level=DEBUG"]));
       mkTick (Returns 2) (Returns (unlines ["level=garbage"]));
       mkTick (Raises (EnvError "No such file")) (Raises (EnvError "No such file"));
       mkTick (Returns 3) (Returns (unlines ["level=ERROR"])) ]) fresh =
  (Val 3,
   mkWorld logging.ERROR
     ([ (logging.INFO, "Log level started as: DEBUG");
        (logging.CRITICAL, "Bad option in gem.conf. Level: garbage is not valid");
        (logging.CRITICAL, "Level has been set to INFO") ]
      ++ mtime_errors "gem.conf" (EnvError "No such file")
      ++ [ (logging.INFO, "Log level changed to: ERROR") ])
     [ Open; Getmtime; Sleep; Getmtime; Sleep; Getmtime; Open;
       Sleep; Getmtime; Sleep; Getmtime; Open ]).
Proof. reflexivity. Qed.

(* ================================================================== *)
(** ** Lines of a text, pieces of a line *)

Lemma readlines_not_empty (s : string) :
  Forall (fun l => l <> EmptyString) (readlines s).
Proof.
  induction s as [|c s IH]; simpl; [constructor|].
  destruct (Ascii.eqb c LF).
  - constructor; [discriminate | exact IH].
  - destruct (readlines s) as [|l ls].
    + constructor; [discriminate | constructor].
    + inversion IH; subst. constructor; [discriminate | assumption].
Qed.

Lemma readlines_concat (s : string) :
  String.concat EmptyString (readlines s) = s.
Proof.
  induction s as [|c s IH]; [reflexivity|].
  cbn [readlines].
  destruct (Ascii.eqb c LF); destruct (readlines s) as [|l ls];
    rewrite <- IH; try reflexivity.
  destruct ls; reflexivity.
Qed.

Lemma readlines_cut_at_LF (s : string) :
  Forall (fun l => l = before_first LF l
                   \/ l = (before_first LF l ++ NL)%string)
    (readlines s).
Proof.
  induction s as [|c s IH]; cbn [readlines]; [constructor|].
  destruct (Ascii.eqb c LF) eqn:E.
  - apply Ascii.eqb_eq in E. subst c.
    constructor; [right; reflexivity | exact IH].
  - destruct (readlines s) as [|l ls].
    + constructor; [|constructor]. left. cbn [before_first]. now rewrite E.
    + inversion IH as [|? ? Hl Hls]; subst. constructor; [|exact Hls].
      cbn [before_first]. rewrite E.
      destruct Hl as [Hl|Hl]; [left | right]; cbn [append]; now f_equal.
Qed.

(** X16.  [readlines] loses nothing and cuts after each LF only: the lines
    put end to end are the text, no line is empty, and a line has no LF
    except as its last character. *)
Theorem readlines_partition (s : string) :
  String.concat EmptyString (readlines s) = s
  /\ Forall (fun l => l <> EmptyString) (readlines s)
  /\ Forall (fun l => l = before_first LF l
                      \/ l = (before_first LF l ++ NL)%string)
       (readlines s).
Proof.
  split; [apply readlines_concat|].
  split; [apply readlines_not_empty | apply readlines_cut_at_LF].
Qed.

(** X1.  Of the lines of the file, [cmnt_filt] drops exactly those whose
    first character is [#]: a blank line, and a line in which spaces or a
    tab come before the [#], are kept. *)
Theorem line_dropped_iff_hash_first (text l : string) :
  In l (readlines (universal_newlines text)) ->
  (search cmnt_filt l = false <-> hash_first l = true).
Proof.
  intros Hin.
  pose proof (readlines_not_empty (universal_newlines text)) as Hne.
  rewrite Forall_forall in Hne. specialize (Hne l Hin).
  rewrite search_cmnt_filt.
  destruct l as [|c r]; [contradiction|].
  cbn [hash_first String.eqb]. destruct (Ascii.eqb c "#"); cbn; intuition.
Qed.

(** X1 at the blank second line of a text: it is kept. *)
Lemma line_dropped_iff_hash_first_witness :
  In NL (readlines (universal_newlines (unlines ["level=INFO"; EmptyString])))
  /\ (search cmnt_filt NL = false <-> hash_first NL = true).
Proof.
  split; [cbn; tauto|].
  apply (line_dropped_iff_hash_first (unlines ["level=INFO"; EmptyString]) NL).
  cbn; tauto.
Defined.

(** X2.  [level_filt] finds a directive in exactly the lines in which
    [level=] occurs somewhere, in these letters: at the start, after other
    text, or inside a longer word. *)
Theorem directive_iff_level_occurs (l : string) :
  search level_filt l = true <->
  exists before after, l = (before ++ "level=" ++ after)%string.
Proof. apply search_level_filt. Qed.

Lemma split_pieces_clean (sep : ascii) (s : string) :
  Forall (fun p => occurs sep p = false) (split sep s).
Proof.
  induction s as [|c s IH]; cbn [split].
  - constructor; [reflexivity | constructor].
  - destruct (Ascii.eqb c sep) eqn:E.
    + constructor; [reflexivity | exact IH].
    + destruct (split sep s) as [|p ps].
      * constructor; [|constructor]. cbn [occurs]. now rewrite E.
      * inversion IH as [|? ? Hp Hps]; subst.
        constructor; [|assumption]. cbn [occurs]. now rewrite E, Hp.
Qed.

(** X14.  [l.split('=')] loses nothing: its pieces hold no [=], and put
    together with [=] between them they give [l] back. *)
Theorem split_join (sep : ascii) (s : string) :
  join sep (split sep s) = s
  /\ Forall (fun p => occurs sep p = false) (split sep s).
Proof.
  split; [|apply split_pieces_clean].
  induction s as [|c s IH]; [reflexivity|].
  cbn [split]. destruct (Ascii.eqb c sep) eqn:E.
  - apply Ascii.eqb_eq in E. subst c.
    rewrite (split_unfold sep s) in *. cbn [join] in *. cbn [append].
    now rewrite IH.
  - rewrite (split_unfold sep s) in *.
    destruct (occurs sep s).
    + rewrite (split_unfold sep (after_first sep s)) in *.
      cbn [join] in *. cbn [append]. now rewrite IH.
    + cbn [join] in *. now rewrite IH.
Qed.

(* ================================================================== *)
(** ** Whitespace, line ends and the retained lines of a text *)

Lemma append_assoc (a b c : string) :
  ((a ++ b) ++ c)%string = (a ++ (b ++ c))%string.
Proof. induction a as [|x a IH]; simpl; [reflexivity | now rewrite IH]. Qed.

Lemma all_chars_weaken (p q : ascii -> bool) (s : string) :
  (forall c, p c = true -> q c = true) ->
  all_chars p s = true -> all_chars q s = true.
Proof.
  intros Hpq. induction s as [|c s IH]; cbn [all_chars]; [reflexivity|].
  intros H. apply andb_true_iff in H as [Hc Hs].
  now rewrite (Hpq c Hc), (IH Hs).
Qed.

Lemma all_chars_occurs (p : ascii -> bool) (d : ascii) (s : string) :
  p d = false -> all_chars p s = true -> occurs d s = false.
Proof.
  intros Hd. induction s as [|c s IH]; cbn [all_chars occurs]; [reflexivity|].
  intros H. apply andb_true_iff in H as [Hc Hs]. rewrite (IH Hs), orb_false_r.
  destruct (Ascii.eqb_spec c d) as [->|]; [congruence | reflexivity].
Qed.

Lemma indentation_blank (pad : string) :
  indentation pad = true -> blank pad = true.
Proof.
  apply all_chars_weaken. intros c H.
  apply orb_true_iff in H as [H|H]; apply Ascii.eqb_eq in H; now subst c.
Qed.

Lemma lstrip_blank_prefix (pad s : string) :
  blank pad = true -> lstrip (pad ++ s) = lstrip s.
Proof.
  induction pad as [|c pad IH]; cbn [blank all_chars append lstrip];
    [reflexivity|].
  intros H. apply andb_true_iff in H as [Hc Hs]. rewrite Hc. now apply IH.
Qed.

Lemma rstrip_blank (pad : string) : blank pad = true -> rstrip pad = EmptyString.
Proof.
  induction pad as [|c pad IH]; cbn [blank all_chars rstrip]; [reflexivity|].
  intros H. apply andb_true_iff in H as [Hc Hs].
  unfold blank in IH. now rewrite (IH Hs), Hc.
Qed.

Lemma rstrip_blank_suffix (s pad : string) :
  blank pad = true -> rstrip (s ++ pad) = rstrip s.
Proof.
  intros H. induction s as [|c s IH]; cbn [append rstrip].
  - now apply rstrip_blank.
  - now rewrite IH.
Qed.

Lemma lstrip_blank (pad : string) : blank pad = true -> lstrip pad = EmptyString.
Proof.
  induction pad as [|c pad IH]; cbn [blank all_chars lstrip]; [reflexivity|].
  intros H. apply andb_true_iff in H as [Hc Hs]. rewrite Hc. now apply IH.
Qed.

Lemma strip_blank_suffix (s pad : string) :
  blank pad = true -> strip (s ++ pad) = strip s.
Proof.
  intros H. unfold strip. induction s as [|c s IH]; cbn [append lstrip].
  - now rewrite (lstrip_blank _ H).
  - destruct (isspace c); [exact IH|].
    change (String c (s ++ pad)) with (String c s ++ pad)%string.
    now apply rstrip_blank_suffix.
Qed.

Lemma strip_blank_around (pad1 s pad2 : string) :
  blank pad1 = true -> blank pad2 = true ->
  strip (pad1 ++ s ++ pad2) = strip s.
Proof.
  intros H1 H2. rewrite <- (strip_blank_suffix s pad2 H2).
  unfold strip. now rewrite (lstrip_blank_prefix _ _ H1).
Qed.

Lemma universal_newlines_line (l s : string) :
  occurs CR l = false ->
  universal_newlines (l ++ String LF s) =
  (l ++ String LF (universal_newlines s))%string.
Proof.
  induction l as [|c l IH]; cbn [occurs append]; intros H.
  - reflexivity.
  - apply orb_false_iff in H as [Hc Hl].
    cbn [universal_newlines]. rewrite Hc. now rewrite (IH Hl).
Qed.

Lemma universal_newlines_crlf_line (l s : string) :
  occurs CR l = false ->
  universal_newlines (l ++ String CR (String LF s)) =
  (l ++ String LF (universal_newlines s))%string.
Proof.
  induction l as [|c l IH]; cbn [occurs append]; intros H.
  - reflexivity.
  - apply orb_false_iff in H as [Hc Hl].
    cbn [universal_newlines]. rewrite Hc. now rewrite (IH Hl).
Qed.

Lemma readlines_line (l s : string) :
  occurs LF l = false ->
  readlines (l ++ String LF s) = (l ++ NL)%string :: readlines s.
Proof.
  induction l as [|c l IH]; cbn [occurs append]; intros H.
  - reflexivity.
  - apply orb_false_iff in H as [Hc Hl].
    cbn [readlines]. rewrite Hc. now rewrite (IH Hl).
Qed.

Lemma universal_newlines_unlines (ls : list string) :
  Forall (fun l => occurs CR l = false) ls ->
  universal_newlines (unlines ls) = unlines ls.
Proof.
  induction 1 as [|l ls Hl _ IH]; cbn [unlines]; [reflexivity|].
  now rewrite (universal_newlines_line _ _ Hl), IH.
Qed.

Lemma universal_newlines_unlines_crlf (ls : list string) :
  Forall (fun l => occurs CR l = false) ls ->
  universal_newlines (unlines_crlf ls) = unlines ls.
Proof.
  induction 1 as [|l ls Hl _ IH]; cbn [unlines unlines_crlf]; [reflexivity|].
  now rewrite (universal_newlines_crlf_line _ _ Hl), IH.
Qed.

Lemma readlines_unlines (ls : list string) :
  Forall (fun l => occurs LF l = false) ls ->
  readlines (unlines ls) = map (fun l => (l ++ NL)%string) ls.
Proof.
  induction 1 as [|l ls Hl _ IH]; cbn [unlines map]; [reflexivity|].
  now rewrite (readlines_line _ _ Hl), IH.
Qed.

Lemma retained_line (l : string) :
  search cmnt_filt (l ++ NL) = negb (hash_first l).
Proof.
  rewrite search_cmnt_filt. destruct l as [|c l]; [reflexivity|].
  cbn [append hash_first String.eqb]. now rewrite andb_true_r.
Qed.

Lemma strip_line (l : string) : strip (l ++ NL) = strip l.
Proof.
  rewrite <- (strip_blank_around EmptyString l NL); reflexivity.
Qed.

Lemma conf_raw_of_lines (ls : list string) :
  conf_raw_of (map (fun l => (l ++ NL)%string) ls) =
  map strip (filter (fun l => negb (hash_first l)) ls).
Proof.
  unfold conf_raw_of, retained.
  induction ls as [|l ls IH]; cbn [map filter]; [reflexivity|].
  rewrite retained_line. destruct (negb (hash_first l)); cbn [map].
  - now rewrite strip_line, IH.
  - exact IH.
Qed.

Lemma retained_lines_of_text_aux (ls : list string) :
  Forall (fun l => occurs CR l = false) ls ->
  Forall (fun l => occurs LF l = false) ls ->
  conf_raw_text (unlines ls) =
    map strip (filter (fun l => negb (hash_first l)) ls)
  /\ conf_raw_text (unlines_crlf ls) =
       map strip (filter (fun l => negb (hash_first l)) ls).
Proof.
  intros Hcr Hlf. unfold conf_raw_text.
  rewrite (universal_newlines_unlines _ Hcr).
  rewrite (universal_newlines_unlines_crlf _ Hcr).
  rewrite (readlines_unlines _ Hlf). split; apply conf_raw_of_lines.
Qed.

(** X17.  For a text of lines closed by LF, or by CR LF, the lines handed
    to the [for] loop are the lines that do not begin with [#], in their
    order, each without the whitespace at its two ends. *)
Theorem retained_lines_of_text (ls : list string) :
  Forall (fun l => occurs CR l = false) ls ->
  Forall (fun l => occurs LF l = false) ls ->
  conf_raw_text (unlines ls) =
    map strip (filter (fun l => negb (hash_first l)) ls)
  /\ conf_raw_text (unlines_crlf ls) =
       map strip (filter (fun l => negb (hash_first l)) ls).
Proof. apply retained_lines_of_text_aux. Qed.

(** X17 at a text of four lines, one of them a comment, one blank. *)
Lemma retained_lines_of_text_witness :
  conf_raw_text (unlines ["# log"; "  level=ERROR  "; EmptyString; "x = 1"])
  = ["level=ERROR"; EmptyString; "x = 1"].
Proof.
  apply (proj1 (retained_lines_of_text
                  ["# log"; "  level=ERROR  "; EmptyString; "x = 1"]
                  ltac:(repeat constructor) ltac:(repeat constructor))).
Defined.

(** X19.  A file with CR LF line ends is handled as the same file with LF
    line ends, by [set_log_level] and by a pass of [log_level_thread]. *)
Theorem crlf_text_as_lf_text
    (config_file : string) (ls : list string) (stat0 : outcome Z)
    (mod_time : Z) (w : World) :
  Forall (fun l => occurs CR l = false) ls ->
  set_log_level config_file (Returns (unlines_crlf ls)) w =
  set_log_level config_file (Returns (unlines ls)) w
  /\ log_level_thread_pass config_file
       (mkTick stat0 (Returns (unlines_crlf ls))) mod_time w =
     log_level_thread_pass config_file
       (mkTick stat0 (Returns (unlines ls))) mod_time w.
Proof.
  intros Hcr.
  assert (E : conf_raw_text (unlines_crlf ls) = conf_raw_text (unlines ls)).
  { unfold conf_raw_text.
    now rewrite (universal_newlines_unlines _ Hcr),
                (universal_newlines_unlines_crlf _ Hcr). }
  split; [now rewrite !set_log_level_read, E|].
  destruct stat0 as [curr_mtime|e]; [|now rewrite !pass_stat_fails].
  destruct (Z.eq_dec curr_mtime mod_time) as [->|Hne].
  - now rewrite !pass_unchanged.
  - now rewrite !(pass_read _ _ _ _ _ Hne), E.
Qed.

(** X19 at the one line [level=WARNING]. *)
Lemma crlf_text_as_lf_text_witness :
  set_log_level "gem.conf" (Returns (unlines_crlf ["level=WARNING"])) fresh =
  (Val tt,
   mkWorld logging.WARNING
     [(logging.INFO, "Log level started as: WARNING")] [Open]).
Proof.
  rewrite (proj1 (crlf_text_as_lf_text "gem.conf" ["level=WARNING"]
                    (Returns 0) 0 fresh ltac:(repeat constructor))).
  reflexivity.
Defined.

Lemma indentation_no (d : ascii) (pad : string) :
  (Ascii.eqb d " " || Ascii.eqb d TAB) = false ->
  indentation pad = true -> occurs d pad = false.
Proof. intros Hd. now apply all_chars_occurs. Qed.

Lemma indented_not_hash_first (pad rest : string) :
  indentation pad = true ->
  pad <> EmptyString \/ hash_first rest = false ->
  hash_first (pad ++ rest) = false.
Proof.
  destruct pad as [|c pad]; cbn [append]; intros Hp [H|H];
    [contradiction | exact H | |];
    cbn [indentation all_chars] in Hp; apply andb_true_iff in Hp as [Hc _];
    apply orb_true_iff in Hc as [Hc|Hc]; apply Ascii.eqb_eq in Hc; now subst c.
Qed.

Lemma conf_raw_text_one_line (pad rest : string) :
  indentation pad = true ->
  occurs CR rest = false -> occurs LF rest = false ->
  pad <> EmptyString \/ hash_first rest = false ->
  conf_raw_text (unlines [(pad ++ rest)%string]) = [strip rest].
Proof.
  intros Hp Hcr Hlf Hh.
  assert (Hcr' : occurs CR (pad ++ rest) = false).
  { rewrite occurs_append, Hcr, orb_false_r.
    now apply indentation_no. }
  assert (Hlf' : occurs LF (pad ++ rest) = false).
  { rewrite occurs_append, Hlf, orb_false_r.
    now apply indentation_no. }
  rewrite (proj1 (retained_lines_of_text_aux [(pad ++ rest)%string]
                    (Forall_cons _ Hcr' (Forall_nil _))
                    (Forall_cons _ Hlf' (Forall_nil _)))).
  cbn [filter]. rewrite (indented_not_hash_first _ _ Hp Hh). cbn [negb map].
  unfold strip. now rewrite (lstrip_blank_prefix _ _ (indentation_blank _ Hp)).
Qed.

(* ================================================================== *)
(** ** Indented lines *)

Ltac each_level H :=
  unfold log_level in H; cbn [In] in H;
  destruct H as [H|[H|[H|[H|[H|[]]]]]]; injection H as <- <-.

(** X3.  A [#] that follows spaces or tabs does not comment a line out.
    For each name of [log_level], the one-line file made of such an
    indentation, [#level=] and the name sets the logger to that level at
    start-up, as a valid directive does. *)
Theorem indented_comment_honored
    (config_file pad name : string) (v : Z) (w : World) :
  indentation pad = true ->
  pad <> EmptyString ->
  In (name, v) log_level ->
  conf_raw_text (unlines [(pad ++ "#level=" ++ name)%string])
  = [("#level=" ++ name)%string]
  /\ set_log_level config_file
       (Returns (unlines [(pad ++ "#level=" ++ name)%string])) w =
     (Val tt,
      mkWorld v
        (records w ++
         [(logging.INFO, ("Log level started as: " ++ name)%string)])
        (calls w ++ [Open])).
Proof.
  intros Hp Hne Hin.
  assert (E : conf_raw_text (unlines [(pad ++ "#level=" ++ name)%string])
              = [("#level=" ++ name)%string]).
  { each_level Hin;
      (rewrite (conf_raw_text_one_line pad _ Hp);
       [reflexivity | reflexivity | reflexivity | now left]). }
  split; [exact E|]. rewrite set_log_level_read, E.
  each_level Hin;
    (erewrite set_log_level_for_valid;
     [reflexivity | reflexivity | reflexivity | reflexivity]).
Qed.

(** X3 at two spaces before [#level=DEBUG]. *)
Lemma indented_comment_honored_witness :
  indentation "  " = true
  /\ set_log_level "gem.conf" (Returns (unlines ["  #level=DEBUG"])) fresh =
     (Val tt,
      mkWorld logging.DEBUG
        [(logging.INFO, "Log level started as: DEBUG")] [Open]).
Proof.
  split; [reflexivity|].
  exact (proj2 (indented_comment_honored "gem.conf" "  " "DEBUG"
                  logging.DEBUG fresh eq_refl
                  ltac:(discriminate) ltac:(cbn; tauto))).
Defined.

(** X15.  Spaces and tabs before [level=] and after the value do not
    count: for each name of [log_level], the line is read as the bare
    directive and sets that level at start-up. *)
Theorem padded_directive_applied
    (config_file pad1 pad2 name : string) (v : Z) (w : World) :
  indentation pad1 = true ->
  indentation pad2 = true ->
  In (name, v) log_level ->
  conf_raw_text (unlines [(pad1 ++ ("level=" ++ name) ++ pad2)%string])
  = [("level=" ++ name)%string]
  /\ set_log_level config_file
       (Returns (unlines [(pad1 ++ ("level=" ++ name) ++ pad2)%string])) w =
     (Val tt,
      mkWorld v
        (records w ++
         [(logging.INFO, ("Log level started as: " ++ name)%string)])
        (calls w ++ [Open])).
Proof.
  intros Hp1 Hp2 Hin.
  assert (Hcr : occurs CR pad2 = false) by now apply indentation_no.
  assert (Hlf : occurs LF pad2 = false) by now apply indentation_no.
  pose proof (indentation_blank _ Hp2) as Hb2.
  assert (E : conf_raw_text
                (unlines [(pad1 ++ ("level=" ++ name) ++ pad2)%string])
              = [("level=" ++ name)%string]).
  { each_level Hin;
      (rewrite (conf_raw_text_one_line pad1 _ Hp1);
       [ now rewrite (strip_blank_suffix _ _ Hb2)
       | now rewrite occurs_append, Hcr
       | now rewrite occurs_append, Hlf
       | right; reflexivity ]). }
  split; [exact E|]. rewrite set_log_level_read, E.
  each_level Hin;
    (erewrite set_log_level_for_valid;
     [reflexivity | reflexivity | reflexivity | reflexivity]).
Qed.

(** X15 at [level=ERROR] after a tab and a space and before two spaces. *)
Lemma padded_directive_applied_witness :
  indentation (String TAB " ") = true
  /\ set_log_level "gem.conf"
       (Returns (unlines [String TAB " level=ERROR  "])) fresh =
     (Val tt,
      mkWorld logging.ERROR
        [(logging.INFO, "Log level started as: ERROR")] [Open]).
Proof.
  split; [reflexivity|].
  exact (proj2 (padded_directive_applied "gem.conf" (String TAB " ")
                  "  " "ERROR" logging.ERROR fresh eq_refl eq_refl
                  ltac:(cbn; tauto))).
Defined.

(* ================================================================== *)
(** ** More on the two parsers *)

Lemma first_directive_app (pre post : list string) (l : string) :
  Forall (fun x => search level_filt x = false) pre ->
  search level_filt l = true ->
  first_directive (pre ++ l :: post) = Some l.
Proof.
  unfold first_directive. intros Hpre Hl.
  induction Hpre as [|x pre Hx _ IH]; cbn [app find].
  - now rewrite Hl.
  - now rewrite Hx.
Qed.

(** X4.  The first line with [level=] decides alone: the lines before it
    that have no [level=] and all the lines after it, other directives
    among them, change nothing to what either loop does. *)
Theorem first_directive_decides
    (config_file : string) (pre post post' : list string) (l : string)
    (w : World) :
  Forall (fun x => search level_filt x = false) pre ->
  search level_filt l = true ->
  set_log_level_for config_file (pre ++ l :: post) w =
  set_log_level_for config_file (l :: post') w
  /\ log_level_thread_for config_file (pre ++ l :: post) w =
     log_level_thread_for config_file (l :: post') w.
Proof.
  intros Hpre Hl.
  pose proof (first_directive_app pre post l Hpre Hl) as H1.
  pose proof (first_directive_app [] post' l (Forall_nil _) Hl) as H2.
  cbn [app] in H2. split.
  - now rewrite (set_log_level_for_first _ _ _ H1),
                (set_log_level_for_first _ _ _ H2).
  - now rewrite (log_level_thread_for_first _ _ _ H1),
                (log_level_thread_for_first _ _ _ H2).
Qed.

(** X4 at [level=WARNING] after a line without directive and before
    [level=ERROR]. *)
Lemma first_directive_decides_witness :
  set_log_level_for "gem.conf" (["name=gem"] ++ "level=WARNING" :: ["level=ERROR"])
    fresh =
  set_log_level_for "gem.conf" ("level=WARNING" :: []) fresh.
Proof.
  apply (first_directive_decides "gem.conf" ["name=gem"] ["level=ERROR"] []
           "level=WARNING" fresh).
  - repeat constructor.
  - reflexivity.
Defined.

(** X5.  At start-up, for each entry of [log_level]: when the value of the
    first directive of a readable file is its name, [set_log_level] sets
    the logger to its level and hands it one record of level INFO that
    names it. *)
Theorem startup_valid_directive_applied
    (config_file text l name : string) (v : Z) (w : World) :
  In (name, v) log_level ->
  first_directive (conf_raw_text text) = Some l ->
  candidate l = ret name ->
  set_log_level config_file (Returns text) w =
  (Val tt,
   mkWorld v
     (records w ++ [(logging.INFO, ("Log level started as: " ++ name)%string)])
     (calls w ++ [Open])).
Proof.
  intros Hin Hf Hc. apply log_level_entry in Hin.
  rewrite set_log_level_read.
  now rewrite (set_log_level_for_valid _ _ _ _ _ _ Hf Hc Hin).
Qed.

(** X5 at [level=CRITICAL] after a comment. *)
Lemma startup_valid_directive_applied_witness :
  set_log_level "gem.conf"
    (Returns (unlines ["# verbosity"; "level=CRITICAL"])) fresh =
  (Val tt,
   mkWorld logging.CRITICAL
     [(logging.INFO, "Log level started as: CRITICAL")] [Open]).
Proof.
  apply (startup_valid_directive_applied "gem.conf"
           (unlines ["# verbosity"; "level=CRITICAL"])
           "level=CRITICAL" "CRITICAL" logging.CRITICAL fresh).
  - cbn; tauto.
  - reflexivity.
  - reflexivity.
Defined.

Lemma lookup_level_values (name : string) (v : Z) :
  lookup log_level name = Some v -> In v level_values.
Proof.
  intros H. pose proof (lookup_mem _ _ _ H) as Hm.
  apply log_level_names in Hm.
  destruct Hm as [->|[->|[->|[->| ->]]]]; cbn in H; injection H as <-;
    cbn; tauto.
Qed.

Lemma INFO_in_level_values : In logging.INFO level_values.
Proof. cbn; tauto. Qed.

(** What a list of retained lines makes of the level: both loops agree on
    it, but for the level left alone by [set_log_level] where the thread
    sets INFO. *)
Lemma loops_level (config_file : string) (conf_raw : list string) :
  exists v, In v level_values /\
    forall w,
      (level (snd (set_log_level_for config_file conf_raw w)) = v
       \/ (v = logging.INFO
           /\ level (snd (set_log_level_for config_file conf_raw w)) = level w))
      /\ level (snd (log_level_thread_for config_file conf_raw w)) = v.
Proof.
  destruct (directive_cases conf_raw)
    as [H | [(l & name & v & Hf & Hc & Hv) | (l & name & Hf & Hc & Hm)]].
  - exists logging.INFO. split; [apply INFO_in_level_values|]. intros w.
    rewrite (set_log_level_for_missing _ _ _ H),
            (log_level_thread_for_missing _ _ _ H). cbn [snd level]. tauto.
  - exists v. split; [now apply (lookup_level_values name)|]. intros w.
    rewrite (set_log_level_for_valid _ _ _ _ _ _ Hf Hc Hv),
            (log_level_thread_for_valid _ _ _ _ _ _ Hf Hc Hv).
    cbn [snd level]. tauto.
  - exists logging.INFO. split; [apply INFO_in_level_values|]. intros w.
    rewrite (set_log_level_for_invalid _ _ _ _ _ Hf Hc Hm),
            (log_level_thread_for_invalid _ _ _ _ _ Hf Hc Hm).
    cbn [snd level]. tauto.
Qed.

(** X6.  Whatever the file is, readable or not, and whatever the logger
    was set to, [set_log_level] leaves the logger at one of the five levels
    of [log_level]. *)
Theorem startup_level_in_dictionary
    (config_file : string) (file0 : outcome string) (w : World) :
  In (level (snd (set_log_level config_file file0 w))) level_values.
Proof.
  destruct file0 as [text|e].
  - rewrite set_log_level_read.
    destruct (loops_level config_file (conf_raw_text text)) as (v & Hv & H).
    destruct (H (mkWorld logging.INFO (records w) (calls w ++ [Open])))
      as [[E|[-> E]] _]; rewrite E; [exact Hv | apply INFO_in_level_values].
  - rewrite set_log_level_unreadable. apply INFO_in_level_values.
Qed.

(** X8.  The initial parse and a later parse of the same text agree: the
    level [set_log_level] leaves is the level a pass of [log_level_thread]
    leaves when it reads that text, whatever the logger was set to
    before either. *)
Theorem startup_and_reload_agree
    (config_file text : string) (curr_mtime mod_time : Z) (w1 w2 : World) :
  curr_mtime <> mod_time ->
  level (snd (set_log_level config_file (Returns text) w1)) =
  level (snd (log_level_thread_pass config_file
                (mkTick (Returns curr_mtime) (Returns text)) mod_time w2)).
Proof.
  intros Hne. rewrite set_log_level_read, (pass_read _ _ _ _ _ Hne).
  cbn [snd].
  destruct (loops_level config_file (conf_raw_text text)) as (v & _ & H).
  rewrite (proj2 (H _)).
  destruct (H (mkWorld logging.INFO (records w1) (calls w1 ++ [Open])))
    as [[E|[-> E]] _]; now rewrite E.
Qed.

(** X8 at a text with a bad value, from loggers set to DEBUG and to
    ERROR: INFO both ways. *)
Lemma startup_and_reload_agree_witness :
  level (snd (set_log_level "gem.conf" (Returns (unlines ["level=loud"]))
                (mkWorld logging.DEBUG [] []))) =
  level (snd (log_level_thread_pass "gem.conf"
                (mkTick (Returns 2) (Returns (unlines ["level=loud"]))) 1
                (mkWorld logging.ERROR [] []))).
Proof.
  apply (startup_and_reload_agree "gem.conf" (unlines ["level=loud"]) 2 1
           (mkWorld logging.DEBUG [] []) (mkWorld logging.ERROR [] [])).
  discriminate.
Defined.

(* ================================================================== *)
(** ** More on the thread *)

Lemma pass_summary (config_file : string) (t : tick) (mod_time : Z) (w : World) :
  exists w',
    log_level_thread_pass config_file t mod_time w =
    (Val (match stat t with Returns c => c | Raises _ => mod_time end), w')
    /\ opens (calls w') =
       (opens (calls w) +
        match stat t with
        | Returns c => if (c =? mod_time)%Z then 0 else 1
        | Raises _ => 0
        end)%nat
    /\ (level w' = level w \/ In (level w') level_values).
Proof.
  destruct t as [[curr_mtime|e] f]; cbn [stat].
  - destruct (Z.eqb_spec curr_mtime mod_time) as [->|Hne].
    + rewrite pass_unchanged. eexists. split; [reflexivity|].
      cbn [calls level]. rewrite opens_app. cbn. split; [lia | now left].
    + destruct f as [text|e].
      * rewrite (pass_read _ _ _ _ _ Hne). eexists. split; [reflexivity|].
        destruct (log_level_thread_for_returns config_file (conf_raw_text text)
                    (mkWorld (level w) (records w)
                       (calls w ++ [Sleep; Getmtime; Open])))
          as (w' & E & Hc).
        destruct (loops_level config_file (conf_raw_text text)) as (v & Hv & H).
        rewrite (proj2 (H _)). rewrite E. cbn [snd]. rewrite Hc.
        cbn [calls]. rewrite opens_app. cbn. split; [lia | now right].
      * rewrite (pass_read_fails _ _ _ _ _ Hne). eexists.
        split; [reflexivity|]. cbn [calls level]. rewrite opens_app. cbn.
        split; [lia | now left].
  - rewrite pass_stat_fails. eexists. split; [reflexivity|].
    cbn [calls level]. rewrite opens_app. cbn. split; [lia | now left].
Qed.

Lemma while_summary (config_file : string) (ticks : list tick) :
  forall mod_time w, exists w',
    log_level_thread_while config_file ticks mod_time w =
    (Val (last_seen ticks mod_time), w')
    /\ opens (calls w') = (opens (calls w) + changes ticks mod_time)%nat
    /\ (level w' = level w \/ In (level w') level_values).
Proof.
  induction ticks as [|t later IH]; intros mod_time w.
  - exists w. split; [reflexivity|]. cbn [changes]. split; [lia | now left].
  - destruct (pass_summary config_file t mod_time w) as (w1 & H1 & Ho1 & Hl1).
    rewrite (while_step _ _ _ _ _ _ _ H1). cbn [last_seen changes].
    destruct (IH (match stat t with Returns c => c | Raises _ => mod_time end) w1)
      as (w2 & H2 & Ho2 & Hl2).
    exists w2. split; [exact H2|]. split.
    + rewrite Ho2, Ho1. destruct (stat t) as [c|e]; [|lia].
      destruct (c =? mod_time); lia.
    + destruct Hl2 as [E|Hin]; [rewrite E; exact Hl1 | now right].
Qed.

(** X9.  After any passes the thread holds, as [mod_time], the
    modification time that [os.path.getmtime] returned last, and the time
    read before the loop when every call since has raised; what was made
    of the file at that time plays no part. *)
Theorem stored_mtime_is_last_seen
    (config_file : string) (ticks : list tick) (mod_time : Z) (w : World) :
  fst (log_level_thread_while config_file ticks mod_time w) =
  Val (last_seen ticks mod_time).
Proof.
  destruct (while_summary config_file ticks mod_time w) as (w' & -> & _).
  reflexivity.
Qed.

(** X10.  The thread opens the configuration file once for each pass in
    which [os.path.getmtime] returns a time other than the one it returned
    last, later or earlier, and in no other pass. *)
Theorem opens_once_per_change
    (config_file : string) (ticks : list tick) (mod_time : Z) (w : World) :
  opens (calls (snd (log_level_thread_while config_file ticks mod_time w))) =
  (opens (calls w) + changes ticks mod_time)%nat.
Proof.
  destruct (while_summary config_file ticks mod_time w) as (w' & -> & H & _).
  exact H.
Qed.

(** X7.  Whatever the file system answers, the thread leaves the level of
    the logger as it found it or at one of the five levels of
    [log_level]. *)
Theorem thread_level_in_dictionary
    (config_file : string) (start : outcome Z) (ticks : list tick) (w : World) :
  let w' := snd (log_level_thread config_file start ticks w) in
  level w' = level w \/ In (level w') level_values.
Proof.
  unfold log_level_thread. destruct start as [m|e].
  - unfold bind, perform.
    destruct (while_summary config_file ticks m
                (mkWorld (level w) (records w) (calls w ++ [Getmtime])))
      as (w' & -> & _ & H).
    exact H.
  - left. reflexivity.
Qed.

(** X11.  The thread takes the modification time it finds when it starts
    as already dealt with.  As long as [os.path.getmtime] keeps returning
    that time, the thread never opens the file, so a change made between
    the reading of [set_log_level] and the start of the thread has no
    effect on the logger. *)
Theorem start_time_taken_as_read
    (config_file : string) (m : Z) (ticks : list tick) (w : World) :
  Forall (fun t => stat t = Returns m) ticks ->
  log_level_thread config_file (Returns m) ticks w =
  (Val m,
   mkWorld (level w) (records w)
     (calls w ++ Getmtime :: idle_calls (List.length ticks))).
Proof.
  intros H. unfold log_level_thread, bind, perform.
  rewrite (while_idle _ _ _ H). cbn [level records calls].
  now rewrite <- app_assoc.
Qed.

(** X11 at a file that said DEBUG when [set_log_level] read it and says
    ERROR, at time 5, when the thread starts. *)
Lemma start_time_taken_as_read_witness :
  (set_log_level "gem.conf" (Returns (unlines ["level=DEBUG"])) ;;
   log_level_thread "gem.conf" (Returns 5)
     [ mkTick (Returns 5) (Returns (unlines ["level=ERROR"]));
       mkTick (Returns 5) (Returns (unlines ["level=ERROR"])) ]) fresh =
  (Val 5,
   mkWorld logging.DEBUG
     [(logging.INFO, "Log level started as: DEBUG")]
     [Open; Getmtime; Sleep; Getmtime; Sleep; Getmtime]).
Proof.
  unfold bind at 1. rewrite set_log_level_read. cbv [fresh records calls app].
  erewrite set_log_level_for_valid;
    [| reflexivity | reflexivity | reflexivity].
  rewrite (start_time_taken_as_read "gem.conf" 5
             [ mkTick (Returns 5) (Returns (unlines ["level=ERROR"]));
               mkTick (Returns 5) (Returns (unlines ["level=ERROR"])) ]
             _ ltac:(repeat constructor)).
  reflexivity.
Defined.

(* ================================================================== *)
(** ** More on [init_timertng_log] *)



(** X13.  When the rotating handler cannot be made on the log file,
    [init_timertng_log] ends with that exception: [set_log_level] is not
    reached, so the level is not set, the configuration file is not opened
    and the thread is not started. *)
Theorem handler_failure_raises
    (config_file log_file : string) (rot_hour : Z) (e : exn)
    (file0 : outcome string) (w : World) :
  0 <= rot_hour <= 23 ->
  init_timertng_log config_file log_file rot_hour (Raises e) file0 w =
  (Exc e,
   mkWorld (level w) (records w) (calls w ++ [AddHandler log_file rot_hour])).
Proof.
  intros H. unfold init_timertng_log, dt_time.
  assert (E : (0 <=? rot_hour) && (rot_hour <=? 23) = true).
  { apply andb_true_iff. split; apply Z.leb_le; lia. }
  now rewrite E.
Qed.

(** X13 at a log directory that does not exist. *)
Lemma handler_failure_raises_witness :
  init_timertng_log "gem.conf" "/nowhere/gem.log" 0
    (Raises (EnvError "No such file or directory"))
    (Returns (unlines ["level=DEBUG"])) fresh =
  (Exc (EnvError "No such file or directory"),
   mkWorld 0 [] [AddHandler "/nowhere/gem.log" 0]).
Proof.
  apply (handler_failure_raises "gem.conf" "/nowhere/gem.log" 0). lia.
Defined.

(* ================================================================== *)
(** ** More on the value of a directive *)

(** X18.  The value the loops validate never holds an [=]: of
    [level=a=b] only [a] is looked at. *)
Theorem validated_value_has_no_equals (l name : string) :
  candidate l = ret name -> occurs "=" name = false.
Proof.
  intros H. unfold candidate, item in H.
  destruct (nth_error (split "=" l) 1) as [x|] eqn:E.
  - assert (Hx : x = name).
    { assert (K : ret x fresh = ret name fresh) by now rewrite H.
      now inversion K. }
    subst x. apply nth_error_In in E.
    pose proof (split_pieces_clean "=" l) as Hall.
    rewrite Forall_forall in Hall. now apply Hall.
  - assert (K : @raise string IndexError fresh = ret name fresh)
      by now rewrite H.
    discriminate K.
Qed.

(** X18 at [level=a=b]. *)
Lemma validated_value_has_no_equals_witness :
  candidate "level=a=b" = ret "a" /\ occurs "=" "a" = false.
Proof.
  split; [reflexivity|].
  apply (validated_value_has_no_equals "level=a=b" "a"). reflexivity.
Defined.

Lemma rstrip_kept_suffix (s t : string) :
  rstrip t <> EmptyString -> rstrip (s ++ t) = (s ++ rstrip t)%string.
Proof.
  intros Ht. induction s as [|c s IH]; cbn [append rstrip]; [reflexivity|].
  rewrite IH. destruct (s ++ rstrip t)%string eqn:E; [|reflexivity].
  apply append_eq_empty in E as [_ E]. contradiction.
Qed.

Lemma conf_raw_text_plain_line (line : string) :
  occurs CR line = false -> occurs LF line = false ->
  hash_first line = false ->
  conf_raw_text (unlines [line]) = [strip line].
Proof.
  intros Hcr Hlf Hh.
  rewrite (proj1 (retained_lines_of_text_aux [line]
                    (Forall_cons _ Hcr (Forall_nil _))
                    (Forall_cons _ Hlf (Forall_nil _)))).
  cbn [filter]. now rewrite Hh.
Qed.

Lemma bad_value_after_indentation (pad name : string) :
  indentation pad = true -> pad <> EmptyString ->
  mem name (keys log_level) = true ->
  mem (pad ++ name) (keys log_level) = false.
Proof.
  intros Hp Hne _. destruct pad as [|c pad]; [contradiction|].
  cbn [indentation all_chars] in Hp. apply andb_true_iff in Hp as [Hc _].
  apply orb_true_iff in Hc as [Hc|Hc]; apply Ascii.eqb_eq in Hc; subst c;
    reflexivity.
Qed.

(** X20.  Spaces or tabs between the [=] and a name of [log_level] are
    part of the value: the directive is rejected, the logger is set to
    INFO and the record of a bad option quotes the value with them. *)
Theorem space_after_equals_rejected
    (config_file pad name : string) (v : Z) (w : World) :
  indentation pad = true ->
  pad <> EmptyString ->
  In (name, v) log_level ->
  set_log_level config_file
    (Returns (unlines [(("level=" ++ pad) ++ name)%string])) w =
  (Val tt,
   mkWorld logging.INFO
     (records w ++
      [ (logging.CRITICAL,
         ("Bad option in " ++ config_file ++ ". Level: " ++ (pad ++ name)
          ++ " is not valid")%string);
        (logging.CRITICAL, "Level has been set to INFO") ])
     (calls w ++ [Open])).
Proof.
  intros Hp Hne Hin.
  assert (Hcr : occurs CR pad = false) by now apply indentation_no.
  assert (Hlf : occurs LF pad = false) by now apply indentation_no.
  assert (Heq : occurs "=" pad = false) by now apply indentation_no.
  assert (Hname : occurs CR name = false /\ occurs LF name = false
                  /\ occurs "=" name = false /\ rstrip name = name
                  /\ mem name (keys log_level) = true).
  { each_level Hin; repeat split; reflexivity. }
  destruct Hname as (Ncr & Nlf & Neq & Nstrip & Nmem).
  set (line := (("level=" ++ pad) ++ name)%string).
  assert (E : conf_raw_text (unlines [line]) = [line]).
  { rewrite conf_raw_text_plain_line.
    - unfold strip, line. change (lstrip (("level=" ++ pad) ++ name))
        with (("level=" ++ pad) ++ name)%string.
      rewrite rstrip_kept_suffix; rewrite Nstrip; [reflexivity|].
      intros ->. discriminate Nmem.
    - unfold line. rewrite !occurs_append, Hcr, Ncr. reflexivity.
    - unfold line. rewrite !occurs_append, Hlf, Nlf. reflexivity.
    - reflexivity. }
  rewrite set_log_level_read, E.
  assert (Hs : search level_filt line = true).
  { apply search_level_filt. exists EmptyString, (pad ++ name)%string.
    unfold line. now rewrite append_assoc. }
  assert (Hc : candidate line = ret (pad ++ name)%string).
  { rewrite (candidate_of_directive _ Hs). f_equal.
    unfold line. rewrite append_assoc.
    change (spec_candidate ("level=" ++ pad ++ name)) with (pad ++ name)%string.
    apply before_first_all. now rewrite occurs_append, Heq, Neq. }
  erewrite set_log_level_for_invalid;
    [ reflexivity | | exact Hc
    | exact (bad_value_after_indentation _ _ Hp Hne Nmem) ].
  unfold first_directive. cbn [find]. now rewrite Hs.
Qed.

(** X20 at [level= INFO]. *)
Lemma space_after_equals_rejected_witness :
  set_log_level "gem.conf" (Returns (unlines ["level= INFO"])) fresh =
  (Val tt,
   mkWorld logging.INFO
     [ (logging.CRITICAL, "Bad option in gem.conf. Level:  INFO is not valid");
       (logging.CRITICAL, "Level has been set to INFO") ]
     [Open]).
Proof.
  exact (space_after_equals_rejected "gem.conf" " " "INFO" logging.INFO fresh
           eq_refl ltac:(discriminate) ltac:(cbn; tauto)).
Defined.
